(** * jifbox: the service layer of [web.py]

    A shallow embedding of the provider classes ([Service],
    [DropboxService], [TumblrService], [JIFBOXService]), of the MongoDB
    collection behind them and of the Flask handlers that drive them
    ([giffed], [dropbox_callback], [tumblr_callback]), followed by the
    properties of the specification stated on that embedding.

    Python objects that are mutated in place (a service's [_config]
    dictionary, the [mongo.services] collection, the session's flashed
    messages, which this application cannot store) live in an explicit state; a raised exception leaves the state
    as it was at the raise, exactly as in Python, where nothing is undone. *)

From Stdlib Require Import ZArith.
From stdpp Require Import gmap strings list fin_maps.

Open Scope string_scope.

(** ** Values *)

(** What a field of a service document holds in this program: a string (a
    token or a secret), a list of strings ([list(access_token)] of the Tumblr
    exchange) or the [ObjectId] the collection assigns under ["_id"]. *)
Inductive value :=
  | VStr (s : string)
  | VList (l : list string)
  | VOid (n : N).

#[global] Instance value_eq_dec : EqDecision value.
Proof. solve_decision. Defined.

(** A document of [mongo.services], and a service's [_config]. *)
Abbreviation document := (gmap string value).

(** Python's truth value of a string: [bool(s)]. *)
Definition truthy_str (s : string) : bool :=
  match s with
  | EmptyString => false
  | String _ _ => true
  end.

(** [bool(os.environ.get(k))] and the like: [None] is false. *)
Definition truthy_opt_str (o : option string) : bool :=
  match o with
  | None => false
  | Some s => truthy_str s
  end.

(** [bool(v)] of a stored value. An [ObjectId] defines neither [__len__] nor
    [__nonzero__] and is therefore true. *)
Definition truthy_value (v : value) : bool :=
  match v with
  | VStr s => truthy_str s
  | VList [] => false
  | VList (_ :: _) => true
  | VOid _ => true
  end.

(** [bool(d.get(k))]: a missing key yields [None], which is false. *)
Definition truthy_get (o : option value) : bool :=
  match o with
  | None => false
  | Some v => truthy_value v
  end.

(** The JSON a third party answers with ([put_file]'s metadata, the body of
    Tumblr's reply). *)
#[warnings="-register-all"]
Inductive json :=
  | JNull
  | JBool (b : bool)
  | JNum (z : Z)
  | JStr (s : string)
  | JArr (l : list json)
  | JObj (l : list (string * json)).

(** [bool(meta)]. *)
Definition truthy_json (j : json) : bool :=
  match j with
  | JNull => false
  | JBool b => b
  | JNum z => negb (z =? 0)%Z
  | JStr s => truthy_str s
  | JArr [] => false
  | JArr (_ :: _) => true
  | JObj [] => false
  | JObj (_ :: _) => true
  end.

(** ** Exceptions and the state-and-exception monad *)

(** The five exception classes of [DropboxOAuth2Flow.finish]. *)
Inductive flow_exn :=
  | BadRequestException
  | BadStateException
  | CsrfException
  | NotApprovedException
  | ProviderException.

#[global] Instance flow_exn_eq_dec : EqDecision flow_exn.
Proof. solve_decision. Defined.

Inductive exn :=
  | PyMongoError                       (* the driver could not complete a call *)
  | NotImplementedError (msg : string)
  | KeyError (key : string)
  | NameError (name : string)
  | TypeError (msg : string)
  | AttributeError (attr : string)
  | BuildError (endpoint : string)     (* url_for of an unknown endpoint *)
  | HTTPException (code : Z)           (* flask.abort(code) *)
  | FlowException (e : flow_exn)
  | RemoteError (msg : string)         (* raised inside a third-party client *)
  | RuntimeError (msg : string).

#[global] Instance exn_eq_dec : EqDecision exn.
Proof. solve_decision. Defined.

Inductive result (A : Type) :=
  | Return (a : A)
  | Raise (e : exn).
Arguments Return {A} a.
Arguments Raise {A} e.

(** A computation over a mutable state [S]. The state that comes back with a
    [Raise] is the state at the raise. *)
Definition M (S A : Type) : Type := S -> result A * S.

Definition ret {S A} (a : A) : M S A := fun s => (Return a, s).
Definition raise {S A} (e : exn) : M S A := fun s => (Raise e, s).
Definition bind {S A B} (c : M S A) (k : A -> M S B) : M S B :=
  fun s =>
    match c s with
    | (Return a, s') => k a s'
    | (Raise e, s') => (Raise e, s')
    end.
Definition get {S} : M S S := fun s => (Return s, s).
Definition put {S} (s : S) : M S unit := fun _ => (Return tt, s).
Definition modify {S} (f : S -> S) : M S unit := fun s => (Return tt, f s).

(** An outcome computed outside the state (a third-party call). *)
Definition lift_result {S A} (r : result A) : M S A := fun s => (r, s).

Declare Scope py_scope.
Delimit Scope py_scope with py.
Notation "x <- c ;; k" := (bind c (fun x => k))
  (at level 100, c at next level, right associativity) : py_scope.
Notation "c ;;; k" := (bind c (fun _ => k))
  (at level 100, right associativity) : py_scope.
Open Scope py_scope.

(** ** The [mongo.services] collection *)

(** The documents in natural order, and the outcomes of the driver's coming
    calls: [true] is a call that fails (server unreachable, write rejected),
    [false] one that goes through; past the end every call goes through. *)
Record mongo_db := {
  docs : list document;
  faults : list bool;
}.

(** One round trip to the server. *)
Definition round_trip : M mongo_db unit :=
  fun m =>
    match faults m with
    | [] => (Return tt, m)
    | false :: fs => (Return tt, {| docs := docs m; faults := fs |})
    | true :: fs => (Raise PyMongoError, {| docs := docs m; faults := fs |})
    end.

Definition has_field (k : string) (v : value) (d : document) : bool :=
  bool_decide (d !! k = Some v).

(** [find_one({k: v})] and [find_one(doc_id)]: the first match, or [None]. *)
Definition find_first (k : string) (v : value) (ds : list document)
  : option document :=
  List.find (has_field k v) ds.

Definition find_one (k : string) (v : value) : M mongo_db (option document) :=
  round_trip ;;;
  m <- get ;;
  ret (find_first k v (docs m)).

(** The [ObjectId] of an insert: one that no document of the collection
    carries. *)
Definition oid_of (d : document) : N :=
  match d !! "_id" with
  | Some (VOid n) => n
  | _ => 0%N
  end.

Definition fresh_oid (ds : list document) : N :=
  N.succ (foldr (fun d acc => N.max (oid_of d) acc) 0%N ds).

(** [update({"_id": i}, d, upsert=True)]: replace the first document whose
    ["_id"] is [i], or append [d]. *)
Fixpoint upsert (i : value) (d : document) (ds : list document)
  : list document :=
  match ds with
  | [] => [d]
  | d0 :: rest =>
      if has_field "_id" i d0 then d :: rest else d0 :: upsert i d rest
  end.

(** [save(d)]: an insert when [d] has no ["_id"] (the driver then adds the new
    ["_id"] to the caller's dictionary), an upsert on ["_id"] otherwise. The
    result is the ["_id"] with the dictionary as [save] leaves it. *)
Definition save (d : document) : M mongo_db (value * document) :=
  round_trip ;;;
  m <- get ;;
  match d !! "_id" with
  | None =>
      let i := VOid (fresh_oid (docs m)) in
      let d' := <["_id" := i]> d in
      put {| docs := docs m ++ [d']; faults := faults m |} ;;;
      ret (i, d')
  | Some i =>
      put {| docs := upsert i d (docs m); faults := faults m |} ;;;
      ret (i, d)
  end.

(** ** Services *)

Inductive service_class :=
  | DropboxService
  | TumblrService
  | JIFBOXService.

#[global] Instance service_class_eq_dec : EqDecision service_class.
Proof. solve_decision. Defined.

(** A service object: its class, the attributes [__init__] reads from the
    environment (an attribute a class does not define is [None] here and its
    absence is accounted for where the attribute is read) and the [_config]
    dictionary. *)
Record service := {
  klass : service_class;
  client_key : option string;
  client_secret : option string;
  hostname : option string;
  _config : document;
}.

Definition service_id (c : service_class) : string :=
  match c with
  | DropboxService => "dropbox"
  | TumblrService => "tumblr"
  | JIFBOXService => "jifbox"
  end.

Definition with_config (self : service) (d : document) : service :=
  {| klass := klass self;
     client_key := client_key self;
     client_secret := client_secret self;
     hostname := hostname self;
     _config := d |}.

(** A method body runs on the object and the collection. *)
Abbreviation method A := (M (service * mongo_db) A).

Definition self_config : method document :=
  fun '(self, m) => (Return (_config self), (self, m)).

Definition set_self_config (d : document) : method unit :=
  fun '(self, m) => (Return tt, (with_config self d, m)).

Definition on_mongo {A} (c : M mongo_db A) : method A :=
  fun '(self, m) => let '(r, m') := c m in (r, (self, m')).

Module Service.

(** The branch of [register] that creates the document. The second
    [find_one] looks up the ["_id"] that [save] has just assigned, so it finds
    the new document ([register_lookup_after_insert] below); if it did not,
    [_config] would be [None] and no later access to [self] could succeed,
    which is rendered here as a [TypeError]. *)
Definition register_new (sid : string) : M mongo_db document :=
  let doc : document := {[ "service_id" := VStr sid ]} in
  doc_id <- save doc ;;
  found <- find_one "_id" (fst doc_id) ;;
  match found with
  | Some d => ret d
  | None => raise (TypeError "NoneType")
  end.

(** [register]: the document of [sid], created when there is none
    ([if not self._config]: [None] and the empty dictionary are false). *)
Definition register (sid : string) : M mongo_db document :=
  found <- find_one "service_id" (VStr sid) ;;
  match found with
  | Some d => if bool_decide (d = ∅) then register_new sid else ret d
  | None => register_new sid
  end.

(** [__delitem__]: the key is removed from [_config] first and the document
    saved afterwards; a missing key is left alone and nothing is written. *)
Definition __delitem__ (key : string) : method unit :=
  cfg <- self_config ;;
  if bool_decide (is_Some (cfg !! key)) then
    set_self_config (delete key cfg) ;;;
    saved <- on_mongo (save (delete key cfg)) ;;
    set_self_config (snd saved)
  else ret tt.

(** [__getitem__]: [self._config.get(key)]. *)
Definition __getitem__ (self : service) (key : string) : option value :=
  _config self !! key.

(** [__setitem__]: the key is assigned in [_config] first and the document
    saved afterwards. *)
Definition __setitem__ (key : string) (v : value) : method unit :=
  cfg <- self_config ;;
  set_self_config (<[key := v]> cfg) ;;;
  saved <- on_mongo (save (<[key := v]> cfg)) ;;
  set_self_config (snd saved).

Definition process {S A} : M S A :=
  raise (NotImplementedError "process must be implemented by services").

End Service.

(** Runs the rest of a constructor on the object under construction; an
    exception discards the object. *)
Definition construct (self : service) (body : method unit) : M mongo_db service :=
  fun m =>
    match body (self, m) with
    | (Return _, (self', m')) => (Return self', m')
    | (Raise e, (_, m')) => (Raise e, m')
    end.

(** [os.environ]. *)
Abbreviation environment := (gmap string string).

(** [DropboxService.__init__]. *)
Definition DropboxService_init (environ : environment) : M mongo_db service :=
  cfg <- Service.register (service_id DropboxService) ;;
  let self :=
    {| klass := DropboxService;
       client_key := environ !! "DROPBOX_KEY";
       client_secret := environ !! "DROPBOX_SECRET";
       hostname := None;
       _config := cfg |} in
  let access_token := environ !! "DROPBOX_TOKEN" in
  match access_token with
  | Some t =>
      if truthy_str t
      then construct self (Service.__setitem__ "access_token" (VStr t))
      else ret self
  | None => ret self
  end.

(** [TumblrService.__init__]. *)
Definition TumblrService_init (environ : environment) : M mongo_db service :=
  cfg <- Service.register (service_id TumblrService) ;;
  ret {| klass := TumblrService;
         client_key := environ !! "TUMBLR_KEY";
         client_secret := environ !! "TUMBLR_SECRET";
         hostname := environ !! "TUMBLR_HOSTNAME";
         _config := cfg |}.

(** The [is_available] property of each class; [JIFBOXService] has the class
    attribute [False]. *)
Definition is_available (self : service) : bool :=
  match klass self with
  | DropboxService =>
      truthy_opt_str (client_key self) && truthy_opt_str (client_secret self)
  | TumblrService =>
      truthy_opt_str (client_key self) && truthy_opt_str (client_secret self)
      && truthy_opt_str (hostname self)
  | JIFBOXService => false
  end.

(** The [is_enabled] property of each class; [JIFBOXService] has the class
    attribute [False]. *)
Definition is_enabled (self : service) : bool :=
  match klass self with
  | DropboxService => truthy_get (Service.__getitem__ self "access_token")
  | TumblrService => truthy_get (Service.__getitem__ self "access_token")
  | JIFBOXService => false
  end.

(** ** The module state and the third parties *)

(** What [giffed] does with a service, in the order it does it. *)
Inductive event :=
  | GetAvailable (sid : string)        (* service.is_available is read *)
  | GetEnabled (sid : string)          (* service.is_enabled is read *)
  | CallProcess (sid : string).        (* service.process(payload) is called *)

#[global] Instance event_eq_dec : EqDecision event.
Proof. solve_decision. Defined.

(** The module-level state: the collection, the [services] dictionary in its
    iteration order, the messages flashed into the session, and the trace of
    what [giffed] did. *)
Record world := {
  mongo : mongo_db;
  services : list (string * service);
  flashes : list string;
  trace : list event;
}.

(** [services[sid]] and the replacement of the object stored under [sid]. *)
Fixpoint assoc (sid : string) (l : list (string * service)) : option service :=
  match l with
  | [] => None
  | (k, s) :: rest => if bool_decide (k = sid) then Some s else assoc sid rest
  end.

Fixpoint assoc_set (sid : string) (s' : service) (l : list (string * service))
  : list (string * service) :=
  match l with
  | [] => []
  | (k, s) :: rest =>
      if bool_decide (k = sid) then (k, s') :: rest
      else (k, s) :: assoc_set sid s' rest
  end.

Definition services_get (sid : string) : M world service :=
  w <- get ;;
  match assoc sid (services w) with
  | Some s => ret s
  | None => raise (KeyError sid)
  end.

(** [services[sid].method(...)]: the method runs on the object stored under
    [sid] and on the collection; what it did to either stays done when it
    raises. *)
Definition call {A} (sid : string) (body : method A) : M world A :=
  fun w =>
    match assoc sid (services w) with
    | None => (Raise (KeyError sid), w)
    | Some self =>
        let '(r, (self', m')) := body (self, mongo w) in
        (r, {| mongo := m';
               services := assoc_set sid self' (services w);
               flashes := flashes w;
               trace := trace w |})
    end.

Definition emit (e : event) : M world unit :=
  modify (fun w => {| mongo := mongo w;
                      services := services w;
                      flashes := flashes w;
                      trace := trace w ++ [e] |}).

(** [app = Flask(__name__)]: the module never assigns [app.secret_key]. *)
Definition secret_key : option string := None.

(** [flask.flash(msg)] stores the message in the session. The session of an
    application without a secret key refuses every write: the store raises
    [RuntimeError] and no message is kept. *)
Definition flash (msg : string) : M world unit :=
  match secret_key with
  | Some _ =>
      modify (fun w => {| mongo := mongo w;
                          services := services w;
                          flashes := flashes w ++ [msg];
                          trace := trace w |})
  | None =>
      raise (RuntimeError "the session is unavailable because no secret key was set")
  end.

(** The payload [giffed] builds. *)
Record payload := {
  filename : string;
  data : string;
  timestamp : string;
}.

(** [rauth.OAuth1Service] as [tumblr_auth_flow] configures it. *)
Record OAuth1Service := {
  consumer_key : option string;
  consumer_secret : option string;
  base_url : string;
}.

(** [request.args]. *)
Abbreviation query := (gmap string string).

(** The third parties: what each client call answers or raises.
    - [put_file token filename data]:
      [DropboxClient(token).put_file(filename, data, overwrite=False)];
    - [post flow token data]:
      [flow.get_session(token).post('post', data=data).json()];
    - [get_access_token flow request_token request_secret verifier];
    - [finish args]: [DropboxOAuth2Flow.finish(request.args)]. *)
Record third_party := {
  put_file : option value -> string -> string -> result json;
  post : OAuth1Service -> option value -> list (string * string) -> result json;
  get_access_token :
    OAuth1Service -> option value -> option value -> string ->
    result (string * string);
  finish : query -> result (string * string * string);
}.

(** ['%s' % x] for an attribute that may be [None]. *)
Definition percent_s (o : option string) : string :=
  match o with
  | None => "None"
  | Some s => s
  end.

(** [tumblr_auth_flow]: built from [services['tumblr']]. The attributes it
    reads exist on a [TumblrService] only. *)
Definition tumblr_auth_flow : M world OAuth1Service :=
  ts <- services_get "tumblr" ;;
  match klass ts with
  | TumblrService =>
      ret {| consumer_key := client_key ts;
             consumer_secret := client_secret ts;
             base_url :=
               "https://api.tumblr.com/v2/blog/" ++ percent_s (hostname ts) ++ "/" |}
  | DropboxService => raise (AttributeError "hostname")
  | JIFBOXService => raise (AttributeError "client_key")
  end.

(** [process] of each class; [JIFBOXService] inherits [Service.process]. *)
Definition process (tp : third_party) (self : service) (p : payload)
  : M world json :=
  match klass self with
  | DropboxService =>
      lift_result
        (put_file tp (Service.__getitem__ self "access_token")
           (filename p) (data p))
  | TumblrService =>
      flow <- tumblr_auth_flow ;;
      let fields :=
        [("type", "text"); ("state", "published");
         ("title", filename p); ("body", data p)] in
      lift_result (post tp flow (Service.__getitem__ self "access_token") fields)
  | JIFBOXService => Service.process
  end.

(** ** Flask *)

Inductive response :=
  | Jsonify (active_services : gmap string json)
  | Redirect (location : string)
  | RenderTemplate (name : string).

(** The routes of the module, by endpoint name. *)
Definition url_map : list (string * string) :=
  [("index", "/");
   ("giffed", "/giffed");
   ("settings", "/settings");
   ("dropbox_auth", "/settings/dropbox/auth");
   ("dropbox_callback", "/settings/dropbox/callback");
   ("dropbox_logout", "/settings/dropbox/logout");
   ("tumblr_auth", "/settings/tumblr/auth");
   ("tumblr_callback", "/settings/tumblr/callback");
   ("tumblr_logout", "/settings/tumblr/logout")].

Fixpoint lookup_route (endpoint : string) (l : list (string * string))
  : option string :=
  match l with
  | [] => None
  | (k, u) :: rest =>
      if bool_decide (k = endpoint) then Some u else lookup_route endpoint rest
  end.

Definition url_for {S} (endpoint : string) : M S string :=
  match lookup_route endpoint url_map with
  | Some u => ret u
  | None => raise (BuildError endpoint)
  end.

Definition abort {S A} (code : Z) : M S A := raise (HTTPException code).

(** The names bound at module level in [web.py]. *)
Definition module_globals : list string :=
  ["datetime"; "os"; "urlparse";
   "DropboxClient"; "DropboxOAuth2Flow";
   "Flask"; "abort"; "flash"; "jsonify"; "redirect"; "render_template";
   "request"; "session"; "url_for";
   "MongoClient"; "OAuth1Service";
   "mongo_url"; "mongo_conn"; "mongo_params"; "mongo";
   "Service"; "DropboxService"; "TumblrService"; "JIFBOXService"; "services";
   "dropbox_auth_flow"; "tumblr_auth_flow"; "app";
   "index"; "giffed"; "settings";
   "dropbox_auth"; "dropbox_callback"; "dropbox_logout";
   "tumblr_auth"; "tumblr_callback"; "tumblr_logout"].

(** A global name is looked up when the expression that mentions it is
    evaluated. *)
Definition global_name {S} (name : string) : M S unit :=
  if bool_decide (name ∈ module_globals) then ret tt else raise (NameError name).

(** The status line Flask answers with: the code of an [abort], 500 for any
    other exception that leaves the view, 302 for a redirect. *)
Definition status (r : result response) : Z :=
  match r with
  | Return (Redirect _) => 302
  | Return _ => 200
  | Raise (HTTPException code) => code
  | Raise _ => 500
  end.

(** [try: body except ...: handler]. *)
Definition try_except {S A} (body : M S A) (handler : exn -> M S A) : M S A :=
  fun s =>
    match body s with
    | (Return a, s') => (Return a, s')
    | (Raise e, s') => handler e s'
    end.

(** ** The views *)

(** The loop of [giffed] over [services.items()]. [a and b] reads [b] only
    when [a] is true. Nothing in the loop assigns to a service, so the objects
    are the ones of the dictionary throughout. *)
Fixpoint giffed_loop (tp : third_party) (p : payload)
    (items : list (string * service)) (active : gmap string json)
  : M world (gmap string json) :=
  match items with
  | [] => ret active
  | (sid, service) :: rest =>
      guard <-
        (emit (GetAvailable sid) ;;;
         if is_available service
         then emit (GetEnabled sid) ;;; ret (is_enabled service)
         else ret false) ;;
      if guard then
        emit (CallProcess sid) ;;;
        meta <- process tp service p ;;
        if truthy_json meta
        then giffed_loop tp p rest (<[sid := meta]> active)
        else giffed_loop tp p rest active
      else giffed_loop tp p rest active
  end.

(** [giffed]; [now] is [datetime.datetime.utcnow().isoformat()]. *)
Definition giffed (tp : third_party) (now : string) : M world response :=
  let p := {| filename := now ++ ".txt"; data := now; timestamp := now |} in
  w <- get ;;
  active <- giffed_loop tp p (services w) ∅ ;;
  ret (Jsonify active).

(** ["..." + e] for an exception object [e]: [str] does not add to it. *)
Definition str_add_exn {S} (s : string) (e : flow_exn) : M S string :=
  raise (TypeError "cannot concatenate 'str' and exception objects").

(** [app.logger.exception(message)] writes to the log only. *)
Definition logger_exception {S} (message : string) : M S unit := ret tt.

(** The [except] clauses of [dropbox_callback], in order; an exception none
    of them names leaves the view. *)
Definition dropbox_callback_except (e : exn) : M world response :=
  match e with
  | FlowException BadRequestException => abort 400
  | FlowException BadStateException => abort 400
  | FlowException CsrfException => abort 403
  | FlowException NotApprovedException =>
      flash "Not approved?  Why not" ;;;
      home <- url_for "home" ;;
      ret (Redirect home)
  | FlowException ProviderException =>
      message <- str_add_exn "Auth error" ProviderException ;;
      logger_exception message ;;;
      abort 403
  | _ => raise e
  end.

(** [dropbox_callback]. *)
Definition dropbox_callback (tp : third_party) (args : query) : M world response :=
  finished <-
    try_except
      (global_name "get_auth_flow" ;;;
       r <- lift_result (finish tp args) ;;
       ret (inl r))
      (fun e => resp <- dropbox_callback_except e ;; ret (inr resp)) ;;
  match finished with
  | inr resp => ret resp
  | inl (access_token, user_id, url_state) =>
      call "dropbox" (Service.__setitem__ "access_token" (VStr access_token)) ;;;
      settings <- url_for "settings" ;;
      ret (Redirect settings)
  end.

(** [tumblr_callback]. [oauth_token and oauth_verifier] is true when both
    parameters are present and non-empty; only then is the verifier used. *)
Definition tumblr_callback (tp : third_party) (args : query) : M world response :=
  let oauth_token := args !! "oauth_token" in
  let oauth_verifier := args !! "oauth_verifier" in
  match oauth_verifier with
  | Some verifier =>
      if truthy_opt_str oauth_token && truthy_str verifier then
        service <- services_get "tumblr" ;;
        flow <- tumblr_auth_flow ;;
        access_token <-
          lift_result
            (get_access_token tp flow
               (Service.__getitem__ service "request_token")
               (Service.__getitem__ service "request_secret")
               verifier) ;;
        call "tumblr"
          (Service.__setitem__ "access_token"
             (VList [fst access_token; snd access_token])) ;;;
        call "tumblr" (Service.__delitem__ "request_token") ;;;
        call "tumblr" (Service.__delitem__ "request_secret")
      else ret tt
  | None => ret tt
  end ;;;
  settings <- url_for "settings" ;;
  ret (Redirect settings).

(** ** The other views and the registry *)

(** The [services] dictionary of the module: [DropboxService()] is built
    first, [TumblrService()] second; the items are listed in that order. *)
Definition services_init (environ : environment)
  : M mongo_db (list (string * service)) :=
  dropbox <- DropboxService_init environ ;;
  tumblr <- TumblrService_init environ ;;
  ret [("dropbox", dropbox); ("tumblr", tumblr)].

(** [dropbox_logout]. *)
Definition dropbox_logout : M world response :=
  call "dropbox" (Service.__delitem__ "access_token") ;;;
  settings <- url_for "settings" ;;
  ret (Redirect settings).

(** [tumblr_logout]. *)
Definition tumblr_logout : M world response :=
  call "tumblr" (Service.__delitem__ "access_token") ;;;
  settings <- url_for "settings" ;;
  ret (Redirect settings).

(** The first leg of the Tumblr flow: what [flow.get_request_token()]
    answers or raises, and the URL [flow.get_authorize_url(request_token)]
    builds. *)
Record request_leg := {
  get_request_token : OAuth1Service -> result (string * string);
  get_authorize_url : OAuth1Service -> string -> string;
}.

(** [tumblr_auth]. *)
Definition tumblr_auth (leg : request_leg) : M world response :=
  service <- services_get "tumblr" ;;
  flow <- tumblr_auth_flow ;;
  request <- lift_result (get_request_token leg flow) ;;
  let request_token := fst request in
  let request_token_secret := snd request in
  let authorize_url := get_authorize_url leg flow request_token in
  call "tumblr" (Service.__setitem__ "request_token" (VStr request_token)) ;;;
  call "tumblr"
    (Service.__setitem__ "request_secret" (VStr request_token_secret)) ;;;
  ret (Redirect authorize_url).

(** * Properties *)

(** ** Concrete objects used in the examples *)

Definition dropbox_doc : document :=
  {[ "_id" := VOid 1; "service_id" := VStr "dropbox" ]}.

Definition tumblr_doc : document :=
  {[ "_id" := VOid 2; "service_id" := VStr "tumblr" ]}.

Definition mk_service (c : service_class) (key secret host : option string)
    (d : document) : service :=
  {| klass := c; client_key := key; client_secret := secret;
     hostname := host; _config := d |}.

(** A Dropbox service with client credentials and an access token. *)
Definition dropbox_on : service :=
  mk_service DropboxService (Some "key") (Some "secret") None
    (<["access_token" := VStr "tok"]> dropbox_doc).

(** A Dropbox service with client credentials and no access token. *)
Definition dropbox_off : service :=
  mk_service DropboxService (Some "key") (Some "secret") None dropbox_doc.

(** A Tumblr service with client credentials, waiting for its callback. *)
Definition tumblr_pending : service :=
  mk_service TumblrService (Some "key") (Some "secret") (Some "blog.example")
    (<["request_token" := VStr "rt"]>
       (<["request_secret" := VStr "rs"]> tumblr_doc)).

(** A Tumblr service with client credentials and an access token. *)
Definition tumblr_on : service :=
  mk_service TumblrService (Some "key") (Some "secret") (Some "blog.example")
    (<["access_token" := VList ["at"; "as"]]> tumblr_doc).

(** The pseudo-service, with a credential planted in its document. *)
Definition jifbox_with_token : service :=
  mk_service JIFBOXService None None None
    {[ "_id" := VOid 3; "service_id" := VStr "jifbox";
       "access_token" := VStr "tok" ]}.

Definition db (ds : list document) (fs : list bool) : mongo_db :=
  {| docs := ds; faults := fs |}.

Definition mk_world (m : mongo_db) (reg : list (string * service)) : world :=
  {| mongo := m; services := reg; flashes := []; trace := [] |}.

(** An environment that sets [DROPBOX_TOKEN]. *)
Definition env_with_token : environment := {[ "DROPBOX_TOKEN" := "envtok" ]}.

(** A callback request without [oauth_verifier]. *)
Definition args_no_verifier : query := {[ "oauth_token" := "rt" ]}.

(** A callback request with both parameters. *)
Definition args_complete : query :=
  {[ "oauth_token" := "rt"; "oauth_verifier" := "v" ]}.

(** The module state while the Tumblr authorization is under way. *)
Definition world_pending : world :=
  mk_world (db [_config dropbox_on; _config tumblr_pending] [])
    [("dropbox", dropbox_on); ("tumblr", tumblr_pending)].

(** A Dropbox service without client credentials whose document holds an
    access token. *)
Definition dropbox_unconfigured : service :=
  mk_service DropboxService None None None
    (<["access_token" := VStr "tok"]> dropbox_doc).

(** Both services of the module, authorized. *)
Definition world_both : world :=
  mk_world (db [_config dropbox_on; _config tumblr_on] [])
    [("dropbox", dropbox_on); ("tumblr", tumblr_on)].

(** Three providers: [A] available and enabled, [B] available and not
    enabled, [C] not available. *)
Definition world_abc : world :=
  mk_world (db [] [])
    [("A", dropbox_on); ("B", tumblr_pending); ("C", dropbox_unconfigured)].

Definition meta_ok : json := JObj [("path", JStr "/x.txt")].

(** Third parties that accept every call. *)
Definition tp_ok : third_party :=
  {| put_file := fun _ _ _ => Return meta_ok;
     post := fun _ _ _ => Return (JObj [("meta", JStr "created")]);
     get_access_token := fun _ _ _ _ => Return ("at", "as");
     finish := fun _ => Return ("tok", "uid", "") |}.

(** Third parties that refuse every call; [finish] raises [e]. *)
Definition tp_down (e : flow_exn) : third_party :=
  {| put_file := fun _ _ _ => Raise (RemoteError "put_file");
     post := fun _ _ _ => Raise (RemoteError "post");
     get_access_token := fun _ _ _ _ => Raise (RemoteError "access_token");
     finish := fun _ => Raise (FlowException e) |}.

(** Dropbox refuses the upload, Tumblr accepts the post. *)
Definition tp_dropbox_down : third_party :=
  {| put_file := fun _ _ _ => Raise (RemoteError "put_file");
     post := post tp_ok;
     get_access_token := get_access_token tp_ok;
     finish := finish tp_ok |}.

(** Dropbox answers the upload with an empty object. *)
Definition tp_dropbox_empty : third_party :=
  {| put_file := fun _ _ _ => Return (JObj []);
     post := post tp_ok;
     get_access_token := get_access_token tp_ok;
     finish := finish tp_ok |}.

(** ** Vocabulary of the statements *)

(** The access credential of a service is present and non-empty. *)
Definition has_credential (self : service) : Prop :=
  exists v, _config self !! "access_token" = Some v /\
            v <> VStr "" /\ v <> VList [].

(** The state with [evs] added to the trace. *)
Definition traced (w : world) (evs : list event) : world :=
  {| mongo := mongo w; services := services w; flashes := flashes w;
     trace := trace w ++ evs |}.

(** What one turn of the loop of [giffed] is expected to do with an item:
    read [is_available]; read [is_enabled] only if that was true; call
    [process] only if both were true. *)
Definition visit_events (item : string * service) : list event :=
  GetAvailable item.1 ::
  (if is_available item.2
   then GetEnabled item.1 ::
        (if is_enabled item.2 then [CallProcess item.1] else [])
   else []).

Definition dispatched (item : string * service) : bool :=
  is_available item.2 && is_enabled item.2.

(** The payload of a request at time [now]. *)
Definition payload_at (now : string) : payload :=
  {| filename := now ++ ".txt"; data := now; timestamp := now |}.

(** The flow [tumblr_auth_flow] builds from a Tumblr service. *)
Definition flow_of (ts : service) : OAuth1Service :=
  {| consumer_key := client_key ts;
     consumer_secret := client_secret ts;
     base_url :=
       "https://api.tumblr.com/v2/blog/" ++ percent_s (hostname ts) ++ "/" |}.

(** The collection holds the dictionary of [self] under its ["_id"]. *)
Definition stored (self : service) (m : mongo_db) : Prop :=
  exists i, _config self !! "_id" = Some i /\
            find_first "_id" i (docs m) = Some (_config self).

(** Every document has an ["_id"] and no two documents share one, as the
    server guarantees for a collection. *)
Definition unique_ids (ds : list document) : Prop :=
  NoDup ((fun d : document => d !! "_id") <$> ds) /\
  Forall (fun d : document => is_Some (d !! "_id")) ds.

(** The dictionary of [self] is the document that [register sid] finds. *)
Definition registered (sid : string) (self : service) (m : mongo_db) : Prop :=
  find_first "service_id" (VStr sid) (docs m) = Some (_config self).

(** The variable [name] is set in the environment and not empty. *)
Definition env_set (environ : environment) (name : string) : Prop :=
  exists v, environ !! name = Some v /\ v <> "".

(** A request leg that hands out the pair [("rt", "rs")]. *)
Definition leg_ok : request_leg :=
  {| get_request_token := fun _ => Return ("rt", "rs");
     get_authorize_url :=
       fun _ t => "http://www.tumblr.com/oauth/authorize?oauth_token=" ++ t |}.

(** The module state with both services registered and Tumblr not yet
    authorized. *)
Definition world_start : world :=
  mk_world (db [dropbox_doc; tumblr_doc] [])
    [("dropbox", dropbox_off);
     ("tumblr",
      mk_service TumblrService (Some "key") (Some "secret")
        (Some "blog.example") tumblr_doc)].

(** An environment with the client credentials of both services. *)
Definition env_clients : environment :=
  {[ "DROPBOX_KEY" := "k"; "DROPBOX_SECRET" := "s";
     "TUMBLR_KEY" := "k"; "TUMBLR_SECRET" := "s";
     "TUMBLR_HOSTNAME" := "blog.example" ]}.

Open Scope list_scope.

(** ** Stepping through a computation *)

Lemma bind_return {S A B} (c : M S A) (k : A -> M S B) s a s' :
  c s = (Return a, s') -> bind c k s = k a s'.
Proof. intros H. unfold bind. by rewrite H. Qed.

Lemma bind_raise {S A B} (c : M S A) (k : A -> M S B) s e s' :
  c s = (Raise e, s') -> bind c k s = (Raise e, s').
Proof. intros H. unfold bind. by rewrite H. Qed.

(** ** The collection *)

Lemma round_trip_no_fault m :
  faults m = [] -> round_trip m = (Return tt, m).
Proof. intros H. unfold round_trip. by rewrite H. Qed.

Lemma round_trip_fault m fs :
  faults m = true :: fs ->
  round_trip m = (Raise PyMongoError, {| docs := docs m; faults := fs |}).
Proof. intros H. unfold round_trip. by rewrite H. Qed.

Lemma find_one_no_fault k v m :
  faults m = [] -> find_one k v m = (Return (find_first k v (docs m)), m).
Proof.
  intros Hf. unfold find_one.
  rewrite (bind_return _ _ _ _ _ (round_trip_no_fault _ Hf)).
  reflexivity.
Qed.

Lemma oid_le_fresh d ds :
  d ∈ ds -> (oid_of d < fresh_oid ds)%N.
Proof.
  unfold fresh_oid. induction 1 as [d ds|d d0 ds _ IH]; simpl in *; lia.
Qed.

(** No document of the collection carries the [ObjectId] of the next insert. *)
Lemma fresh_oid_unused ds :
  List.find (has_field "_id" (VOid (fresh_oid ds))) ds = None.
Proof.
  destruct (List.find _ ds) as [d|] eqn:E; [exfalso | done].
  apply find_some in E as [Hin Hd].
  apply list_elem_of_In, oid_le_fresh in Hin.
  apply bool_decide_eq_true in Hd.
  unfold oid_of in Hin. rewrite Hd in Hin. lia.
Qed.

Lemma find_first_app_new k v ds d :
  List.find (has_field k v) ds = None ->
  has_field k v d = true ->
  find_first k v (ds ++ [d]) = Some d.
Proof.
  unfold find_first. induction ds as [|d0 ds IH]; simpl; intros Hn Hd.
  - by rewrite Hd.
  - destruct (has_field k v d0); [done | by apply IH].
Qed.

Lemma find_first_upsert i d ds :
  d !! "_id" = Some i -> find_first "_id" i (upsert i d ds) = Some d.
Proof.
  intros Hd. assert (Hf : has_field "_id" i d = true)
    by (by apply bool_decide_eq_true).
  unfold find_first. induction ds as [|d0 ds IH]; simpl.
  - by rewrite Hf.
  - destruct (has_field "_id" i d0) eqn:E; simpl.
    + by rewrite Hf.
    + by rewrite E.
Qed.

(** What a [save] that goes through leaves behind: the dictionary has the
    ["_id"] that is returned, differs from the one passed in at most there,
    and is the document the collection now finds under that ["_id"]. *)
Lemma save_returns d m i d' m' :
  save d m = (Return (i, d'), m') ->
  d' !! "_id" = Some i /\
  (forall k, k <> "_id" -> d' !! k = d !! k) /\
  find_first "_id" i (docs m') = Some d' /\
  faults m' = match faults m with [] => [] | _ :: fs => fs end.
Proof.
  unfold save, bind, get, put, ret, round_trip.
  destruct (faults m) as [|[] fs] eqn:Hf; simpl; [| discriminate |];
    destruct (d !! "_id") as [j|] eqn:Hd; simpl; intros H;
    inversion H; subst; clear H; simpl;
    repeat split; auto using find_first_upsert.
  all: try (by rewrite lookup_insert_eq).
  all: try (intros k Hk; by rewrite lookup_insert_ne).
  all: apply find_first_app_new; [apply fresh_oid_unused|];
    apply bool_decide_eq_true; by rewrite lookup_insert_eq.
Qed.

Lemma save_fault d m fs :
  faults m = true :: fs ->
  save d m = (Raise PyMongoError, {| docs := docs m; faults := fs |}).
Proof.
  intros H. unfold save, bind. by rewrite (round_trip_fault _ _ H).
Qed.

(** With no fault pending, [save] goes through. *)
Lemma save_no_fault d m :
  faults m = [] -> exists i d' m', save d m = (Return (i, d'), m') /\ faults m' = [].
Proof.
  intros H. unfold save, bind, get, put, ret.
  rewrite (round_trip_no_fault _ H).
  destruct (d !! "_id"); simpl; eauto 10.
Qed.

(** ** [Service]: item access *)

(** C3, the counterexample: the pseudo-service is not enabled although its
    document holds a non-empty [access_token]. *)
Lemma jifbox_credential_not_enabled :
  has_credential jifbox_with_token /\ is_enabled jifbox_with_token = false.
Proof.
  split; [| reflexivity].
  exists (VStr "tok"). split; [reflexivity | split; discriminate].
Qed.

Lemma truthy_value_nonempty v :
  truthy_value v = true <-> v <> VStr "" /\ v <> VList [].
Proof.
  destruct v as [[|a s]|[|x l]|n]; simpl; split; try done;
    intros [H1 H2]; congruence.
Qed.

Lemma truthy_get_credential self :
  truthy_get (Service.__getitem__ self "access_token") = true <->
  has_credential self.
Proof.
  unfold Service.__getitem__, has_credential, truthy_get.
  destruct (_config self !! "access_token") as [v|]; split.
  - intros H. exists v. split; [done | by apply truthy_value_nonempty].
  - intros (v' & Hv & Hne). inversion Hv; subst.
    by apply truthy_value_nonempty.
  - discriminate.
  - intros (v' & Hv & _). discriminate.
Qed.

(** C3, as amended: a Dropbox or a Tumblr service is enabled exactly when its
    [access_token] field is present and non-empty; the pseudo-service
    [JIFBOXService] is never enabled, whatever its document holds. *)
Theorem is_enabled_iff_credential (self : service) :
  is_enabled self = true <->
  klass self <> JIFBOXService /\ has_credential self.
Proof.
  unfold is_enabled. destruct (klass self) eqn:K.
  - rewrite truthy_get_credential. split; [by intros ? | by intros [_ ?]].
  - rewrite truthy_get_credential. split; [by intros ? | by intros [_ ?]].
  - split; [discriminate | by intros [? _]].
Qed.

(** C2, the counterexample: the write of a [__setitem__] fails, the call
    raises, and the dictionary in memory already holds the new value. *)
Lemma setitem_failed_write_not_rolled_back :
  exists self' m',
    Service.__setitem__ "access_token" (VStr "new")
      (dropbox_on, db [_config dropbox_on] [true])
    = (Raise PyMongoError, (self', m')) /\
    Service.__getitem__ dropbox_on "access_token" = Some (VStr "tok") /\
    Service.__getitem__ self' "access_token" = Some (VStr "new") /\
    docs m' = [_config dropbox_on].
Proof.
  eexists _, _. split; [reflexivity |]. repeat split.
Qed.

(** C2, as amended: when the write issued by [__setitem__] or [__delitem__]
    fails, the call fails with the driver's exception, the collection is left
    as it was, and the dictionary in memory keeps the change (the key set to
    the new value, or removed); a [__delitem__] of a missing key writes
    nothing and returns. *)
Theorem failed_write_keeps_mutation
    (self : service) (m : mongo_db) (fs : list bool) (key : string) (v : value) :
  faults m = true :: fs ->
  Service.__setitem__ key v (self, m)
  = (Raise PyMongoError,
     (with_config self (<[key := v]> (_config self)),
      {| docs := docs m; faults := fs |})) /\
  (is_Some (_config self !! key) ->
   Service.__delitem__ key (self, m)
   = (Raise PyMongoError,
      (with_config self (delete key (_config self)),
       {| docs := docs m; faults := fs |}))) /\
  (_config self !! key = None ->
   Service.__delitem__ key (self, m) = (Return tt, (self, m))).
Proof.
  intros Hf. repeat split.
  - unfold Service.__setitem__, bind, self_config, set_self_config, on_mongo.
    simpl. by rewrite (save_fault _ _ _ Hf).
  - intros Hk.
    unfold Service.__delitem__, bind, self_config, set_self_config, on_mongo.
    simpl. rewrite bool_decide_eq_true_2 by done. simpl.
    by rewrite (save_fault _ _ _ Hf).
  - intros Hk.
    unfold Service.__delitem__, bind, self_config, ret. simpl.
    rewrite bool_decide_eq_false_2; [done |]. rewrite Hk. by intros [? ?].
Qed.

Lemma failed_write_keeps_mutation_witness :
  faults (db [_config dropbox_on] [true]) = [true] /\
  Service.__setitem__ "access_token" (VStr "new")
    (dropbox_on, db [_config dropbox_on] [true])
  = (Raise PyMongoError,
     (with_config dropbox_on (<["access_token" := VStr "new"]> (_config dropbox_on)),
      db [_config dropbox_on] [])).
Proof.
  split; [reflexivity |].
  exact (proj1 (failed_write_keeps_mutation dropbox_on
                  (db [_config dropbox_on] [true]) [] "access_token"
                  (VStr "new") eq_refl)).
Defined.

(** What a [__setitem__] that returns leaves behind. *)
Lemma setitem_returns key v self m self' m' :
  Service.__setitem__ key v (self, m) = (Return tt, (self', m')) ->
  key <> "_id" ->
  _config self' !! key = Some v /\
  (forall k, k <> key -> k <> "_id" -> _config self' !! k = _config self !! k) /\
  stored self' m' /\
  self' = with_config self (_config self').
Proof.
  unfold Service.__setitem__, bind, self_config, set_self_config, on_mongo.
  simpl. destruct (save _ m) as [[[i d']|e] m1] eqn:Hs; [| discriminate].
  intros H Hk. inversion H; subst; clear H. simpl.
  apply save_returns in Hs as (Hid & Hother & Hfind & _).
  repeat split.
  - rewrite Hother by done. apply lookup_insert_eq.
  - intros k Hk1 Hk2. rewrite Hother by done. by apply lookup_insert_ne.
  - by exists i.
Qed.

Lemma setitem_no_fault key v self m :
  faults m = [] ->
  exists self' m',
    Service.__setitem__ key v (self, m) = (Return tt, (self', m')) /\
    faults m' = [].
Proof.
  intros Hf. destruct (save_no_fault (<[key := v]> (_config self)) m Hf)
    as (i & d' & m' & Hs & Hf').
  unfold Service.__setitem__, bind, self_config, set_self_config, on_mongo.
  simpl. rewrite Hs. simpl. eauto.
Qed.

(** What a [__delitem__] does when no fault is pending. *)
Lemma delitem_no_fault key self m :
  faults m = [] -> key <> "_id" ->
  exists self' m',
    Service.__delitem__ key (self, m) = (Return tt, (self', m')) /\
    faults m' = [] /\
    _config self' !! key = None /\
    (forall k, k <> key -> k <> "_id" -> _config self' !! k = _config self !! k) /\
    (stored self m -> stored self' m') /\
    self' = with_config self (_config self').
Proof.
  intros Hf Hk.
  unfold Service.__delitem__, bind, self_config, set_self_config, on_mongo, ret.
  simpl. case_bool_decide as Hin; simpl.
  - destruct (save_no_fault (delete key (_config self)) m Hf)
      as (i & d' & m' & Hs & Hf').
    rewrite Hs. simpl. exists (with_config self d'), m'.
    apply save_returns in Hs as (Hid & Hother & Hfind & _).
    repeat split; auto.
    + rewrite Hother by done. apply lookup_delete_eq.
    + intros k Hk1 Hk2. rewrite Hother by done. by apply lookup_delete_ne.
    + intros _. by exists i.
  - exists self, m. repeat split; auto.
    + destruct (_config self !! key) eqn:E; [| done].
      exfalso. apply Hin. by eexists.
    + by destruct self.
Qed.

(** The lookup that follows the insert of [register] finds the new document:
    with no fault pending, [register] returns. *)
Lemma register_lookup_after_insert sid m :
  faults m = [] ->
  exists cfg m', Service.register sid m = (Return cfg, m') /\ faults m' = [].
Proof.
  intros Hf.
  assert (Hnew : exists cfg m',
    Service.register_new sid m = (Return cfg, m') /\ faults m' = []).
  { unfold Service.register_new.
    destruct (save_no_fault {[ "service_id" := VStr sid ]} m Hf)
      as (i & d' & m' & Hs & Hf').
    rewrite (bind_return _ _ _ _ _ Hs).
    rewrite (bind_return _ _ _ _ _ (find_one_no_fault _ _ _ Hf')).
    apply save_returns in Hs as (_ & _ & Hfind & _).
    simpl. rewrite Hfind. unfold ret. eauto. }
  unfold Service.register.
  rewrite (bind_return _ _ _ _ _ (find_one_no_fault _ _ _ Hf)).
  destruct (find_first "service_id" (VStr sid) (docs m)) as [d|]; [| done].
  case_bool_decide; [done |]. unfold ret. eauto.
Qed.

(** ** [DropboxService.__init__] *)

Lemma construct_returns self body m self' m' :
  construct self body m = (Return self', m') ->
  body (self, m) = (Return tt, (self', m')).
Proof.
  unfold construct. destruct (body (self, m)) as [[[]|e] [s1 m1]];
    intros H; inversion H; subst; reflexivity.
Qed.

Lemma truthy_str_nonempty t : t <> "" -> truthy_str t = true.
Proof. by destruct t. Qed.

(** ** [tumblr_callback] *)

Lemma assoc_set_eq sid s s' l :
  assoc sid l = Some s -> assoc sid (assoc_set sid s' l) = Some s'.
Proof.
  induction l as [|[k x] l IH]; simpl; [discriminate |].
  case_bool_decide as Hk; simpl.
  - intros _. by rewrite bool_decide_eq_true_2.
  - intros H. rewrite bool_decide_eq_false_2 by done. by apply IH.
Qed.

Lemma call_run {A} sid (body : method A) w self r self' m' :
  assoc sid (services w) = Some self ->
  body (self, mongo w) = (r, (self', m')) ->
  call sid body w
  = (r, {| mongo := m';
           services := assoc_set sid self' (services w);
           flashes := flashes w;
           trace := trace w |}).
Proof. intros Ha Hb. unfold call. by rewrite Ha, Hb. Qed.

Lemma services_get_found sid w s :
  assoc sid (services w) = Some s -> services_get sid w = (Return s, w).
Proof. intros H. unfold services_get, bind, get, ret. by rewrite H. Qed.

Lemma tumblr_auth_flow_found w ts :
  assoc "tumblr" (services w) = Some ts ->
  klass ts = TumblrService ->
  tumblr_auth_flow w = (Return (flow_of ts), w).
Proof.
  intros Ha Hk. unfold tumblr_auth_flow.
  rewrite (bind_return _ _ _ _ _ (services_get_found _ _ _ Ha)).
  by rewrite Hk.
Qed.

(** C10: without [oauth_token] or without [oauth_verifier] the callback
    redirects to the settings page and changes nothing: not the dictionary of
    any service, not the collection. *)
Theorem tumblr_callback_missing_parameter
    (tp : third_party) (args : query) (w : world) :
  args !! "oauth_token" = None \/ args !! "oauth_verifier" = None ->
  tumblr_callback tp args w = (Return (Redirect "/settings"), w).
Proof.
  intros H. unfold tumblr_callback.
  destruct (args !! "oauth_verifier") as [v|] eqn:Hv.
  - destruct H as [H|H]; [| discriminate]. rewrite H. reflexivity.
  - reflexivity.
Qed.

Lemma tumblr_callback_missing_parameter_witness :
  tumblr_callback tp_ok args_no_verifier
    (mk_world (db [_config tumblr_pending] []) [("tumblr", tumblr_pending)])
  = (Return (Redirect "/settings"),
     mk_world (db [_config tumblr_pending] []) [("tumblr", tumblr_pending)]).
Proof.
  apply (tumblr_callback_missing_parameter tp_ok args_no_verifier).
  right. reflexivity.
Defined.

(** C5, the counterexample: the exchange fails, the exception leaves the
    view, and both request-token fields are still in the dictionary. *)
Lemma failed_exchange_keeps_request_token :
  exists w' ts,
    tumblr_callback (tp_down ProviderException) args_complete world_pending
    = (Raise (RemoteError "access_token"), w') /\
    assoc "tumblr" (services w') = Some ts /\
    _config ts !! "request_token" = Some (VStr "rt") /\
    _config ts !! "request_secret" = Some (VStr "rs").
Proof.
  exists world_pending, tumblr_pending. split; [reflexivity |].
  split; [reflexivity |]. split; reflexivity.
Qed.

(** C5, as amended: when the exchange succeeds and the writes that follow go
    through, [request_token] and [request_secret] are gone from the
    dictionary, which holds the new [access_token] and is the document the
    collection stores; when the exchange fails, its exception leaves the view
    and nothing has changed. *)
Theorem tumblr_callback_request_fields
    (tp : third_party) (args : query) (w : world) (ts : service)
    (token verifier : string) :
  args !! "oauth_token" = Some token ->
  args !! "oauth_verifier" = Some verifier ->
  token <> "" ->
  verifier <> "" ->
  assoc "tumblr" (services w) = Some ts ->
  klass ts = TumblrService ->
  (forall e,
     get_access_token tp (flow_of ts) (_config ts !! "request_token")
       (_config ts !! "request_secret") verifier = Raise e ->
     tumblr_callback tp args w = (Raise e, w)) /\
  (forall a b,
     get_access_token tp (flow_of ts) (_config ts !! "request_token")
       (_config ts !! "request_secret") verifier = Return (a, b) ->
     faults (mongo w) = [] ->
     exists w' ts',
       tumblr_callback tp args w = (Return (Redirect "/settings"), w') /\
       assoc "tumblr" (services w') = Some ts' /\
       _config ts' !! "request_token" = None /\
       _config ts' !! "request_secret" = None /\
       _config ts' !! "access_token" = Some (VList [a; b]) /\
       stored ts' (mongo w')).
Proof.
  intros Ht Hv Htne Hvne Ha Hk.
  unfold tumblr_callback. rewrite Ht, Hv. simpl.
  rewrite (truthy_str_nonempty _ Htne), (truthy_str_nonempty _ Hvne). simpl.
  split.
  - intros e He.
    rewrite (bind_raise _ _ w e w); [done |].
    rewrite (bind_return _ _ _ _ _ (services_get_found _ _ _ Ha)).
    rewrite (bind_return _ _ _ _ _ (tumblr_auth_flow_found _ _ Ha Hk)).
    unfold Service.__getitem__. rewrite He. reflexivity.
  - intros a b He Hf.
    destruct (setitem_no_fault "access_token" (VList [a; b]) ts (mongo w) Hf)
      as (ts1 & m1 & Hs1 & Hf1).
    pose proof (setitem_returns _ _ _ _ _ _ Hs1 ltac:(discriminate))
      as (Hat1 & _ & Hst1 & _).
    destruct (delitem_no_fault "request_token" ts1 m1 Hf1 ltac:(discriminate))
      as (ts2 & m2 & Hs2 & Hf2 & Hrt2 & Hsame2 & Hst2 & _).
    destruct (delitem_no_fault "request_secret" ts2 m2 Hf2 ltac:(discriminate))
      as (ts3 & m3 & Hs3 & Hf3 & Hrs3 & Hsame3 & Hst3 & _).
    pose proof (call_run "tumblr" _ w ts _ ts1 m1 Ha Hs1) as Hc1.
    set (w1 := {| mongo := m1 |}) in Hc1.
    assert (Ha1 : assoc "tumblr" (services w1) = Some ts1)
      by (by apply (assoc_set_eq _ ts)).
    pose proof (call_run "tumblr" _ w1 ts1 _ ts2 m2 Ha1 Hs2) as Hc2.
    set (w2 := {| mongo := m2 |}) in Hc2.
    assert (Ha2 : assoc "tumblr" (services w2) = Some ts2)
      by (by apply (assoc_set_eq _ ts1)).
    pose proof (call_run "tumblr" _ w2 ts2 _ ts3 m3 Ha2 Hs3) as Hc3.
    set (w3 := {| mongo := m3 |}) in Hc3.
    assert (Ha3 : assoc "tumblr" (services w3) = Some ts3)
      by (by apply (assoc_set_eq _ ts2)).
    exists w3, ts3. split.
    + rewrite (bind_return _ _ w tt w3); [reflexivity |].
      rewrite (bind_return _ _ _ _ _ (services_get_found _ _ _ Ha)).
      rewrite (bind_return _ _ _ _ _ (tumblr_auth_flow_found _ _ Ha Hk)).
      unfold Service.__getitem__. rewrite He.
      rewrite (bind_return _ _ w (a, b) w) by reflexivity. simpl.
      rewrite (bind_return _ _ _ _ _ Hc1).
      rewrite (bind_return _ _ _ _ _ Hc2).
      exact Hc3.
    + repeat split; auto.
      * rewrite Hsame3 by done. exact Hrt2.
      * rewrite Hsame3, Hsame2 by done. exact Hat1.
Qed.

Lemma tumblr_callback_request_fields_witness :
  exists w' ts',
    tumblr_callback tp_ok args_complete world_pending
    = (Return (Redirect "/settings"), w') /\
    assoc "tumblr" (services w') = Some ts' /\
    _config ts' !! "request_token" = None /\
    _config ts' !! "request_secret" = None /\
    _config ts' !! "access_token" = Some (VList ["at"; "as"]) /\
    stored ts' (mongo w').
Proof.
  exact (proj2 (tumblr_callback_request_fields tp_ok args_complete
                  world_pending tumblr_pending "rt" "v"
                  ltac:(reflexivity) ltac:(reflexivity)
                  ltac:(discriminate) ltac:(discriminate)
                  ltac:(reflexivity) ltac:(reflexivity))
           "at" "as" ltac:(reflexivity) ltac:(reflexivity)).
Defined.

(** ** [process] *)

(** [process] reads the state and leaves it as it is. *)
Lemma process_frame tp self p w :
  process tp self p w = ((process tp self p w).1, w).
Proof.
  cbv [process tumblr_auth_flow services_get bind get ret raise lift_result
       Service.process].
  destruct (klass self); simpl; try reflexivity.
  destruct (assoc "tumblr" (services w)) as [ts|]; simpl; [| reflexivity].
  destruct (klass ts); reflexivity.
Qed.

(** Its outcome does not depend on the trace. *)
Lemma process_traced tp self p w evs :
  (process tp self p (traced w evs)).1 = (process tp self p w).1.
Proof.
  cbv [process tumblr_auth_flow services_get bind get ret raise lift_result
       Service.process].
  destruct (klass self); simpl; try reflexivity.
  destruct (assoc "tumblr" (services w)) as [ts|]; simpl; [| reflexivity].
  destruct (klass ts); reflexivity.
Qed.

(** C6, the counterexample: a Dropbox service that is not available (no
    client credentials) is asked to process a payload; the call hands the
    stored token to the client and returns the client's metadata. *)
Lemma process_unavailable_returns :
  is_available dropbox_unconfigured = false /\
  process tp_ok dropbox_unconfigured (payload_at "t") world_pending
  = (Return meta_ok, world_pending).
Proof. split; reflexivity. Qed.

(** C6, as amended: [process] checks neither [is_available] nor
    [is_enabled]. A Dropbox service hands its stored [access_token] ([None]
    when there is none) to the Dropbox client and returns or raises what
    [put_file] does; a Tumblr service does the same with the session of the
    flow built from [services['tumblr']]; the pseudo-service raises
    [NotImplementedError]. The state is left as it was. *)
Theorem process_unguarded
    (tp : third_party) (self : service) (p : payload) (w : world) :
  (klass self = DropboxService ->
   process tp self p w
   = (put_file tp (_config self !! "access_token") (filename p) (data p), w)) /\
  (klass self = TumblrService ->
   forall ts,
     assoc "tumblr" (services w) = Some ts ->
     klass ts = TumblrService ->
     process tp self p w
     = (post tp (flow_of ts) (_config self !! "access_token")
          [("type", "text"); ("state", "published");
           ("title", filename p); ("body", data p)], w)) /\
  (klass self = JIFBOXService ->
   process tp self p w
   = (Raise (NotImplementedError "process must be implemented by services"), w)).
Proof.
  unfold process. repeat split.
  - intros ->. reflexivity.
  - intros -> ts Ha Hk.
    by rewrite (bind_return _ _ _ _ _ (tumblr_auth_flow_found _ _ Ha Hk)).
  - intros ->. reflexivity.
Qed.

Lemma process_unguarded_witness :
  is_enabled dropbox_off = false /\
  process (tp_down ProviderException) dropbox_off (payload_at "t") world_pending
  = (Raise (RemoteError "put_file"), world_pending).
Proof.
  split; [reflexivity |].
  exact (proj1 (process_unguarded (tp_down ProviderException) dropbox_off
                  (payload_at "t") world_pending) eq_refl).
Defined.

(** ** [dropbox_callback] *)

(** The name [get_auth_flow] is bound nowhere in the module: the lookup
    raises inside the [try], no [except] clause names [NameError], and the
    exception leaves the view whatever the request holds. *)
Lemma dropbox_callback_name_error tp args w :
  dropbox_callback tp args w = (Raise (NameError "get_auth_flow"), w).
Proof. reflexivity. Qed.

(** C7, the counterexample: a malformed request and a stale state are
    different failures of [finish], and the callback answers both with the
    same status, as do its [except] clauses taken alone. *)
Lemma bad_request_and_bad_state_same_status :
  BadRequestException <> BadStateException /\
  status (dropbox_callback (tp_down BadRequestException) ∅ world_pending).1
  = status (dropbox_callback (tp_down BadStateException) ∅ world_pending).1 /\
  status (dropbox_callback_except (FlowException BadRequestException)
            world_pending).1
  = status (dropbox_callback_except (FlowException BadStateException)
              world_pending).1.
Proof. split; [discriminate | split; reflexivity]. Qed.

(** C7, as amended: the [except] clauses of the callback do not give each
    failure of [finish] a status of its own. [BadRequestException] and
    [BadStateException] are both answered with status 400 and
    [CsrfException] with status 403, each leaving the module state as it
    was. *)
Theorem dropbox_callback_except_statuses (w : world) :
  dropbox_callback_except (FlowException BadRequestException) w
  = (Raise (HTTPException 400), w) /\
  dropbox_callback_except (FlowException BadStateException) w
  = (Raise (HTTPException 400), w) /\
  dropbox_callback_except (FlowException CsrfException) w
  = (Raise (HTTPException 403), w) /\
  status (dropbox_callback_except (FlowException BadRequestException) w).1
  = 400%Z /\
  status (dropbox_callback_except (FlowException BadStateException) w).1
  = 400%Z /\
  status (dropbox_callback_except (FlowException CsrfException) w).1
  = 403%Z.
Proof. repeat split. Qed.

(** ** [giffed] *)

Lemma traced_nil w : traced w [] = w.
Proof. destruct w. unfold traced. simpl. by rewrite app_nil_r. Qed.

Lemma traced_traced w evs1 evs2 :
  traced (traced w evs1) evs2 = traced w (evs1 ++ evs2).
Proof. unfold traced. simpl. by rewrite app_assoc. Qed.

Lemma emit_traced e w : emit e w = (Return tt, traced w [e]).
Proof. reflexivity. Qed.

(** One turn of the loop. *)
Lemma giffed_loop_cons tp p sid s rest acc w :
  giffed_loop tp p ((sid, s) :: rest) acc w =
  if dispatched (sid, s) then
    match (process tp s p w).1 with
    | Return meta =>
        giffed_loop tp p rest
          (if truthy_json meta then <[sid := meta]> acc else acc)
          (traced w (visit_events (sid, s)))
    | Raise e => (Raise e, traced w (visit_events (sid, s)))
    end
  else giffed_loop tp p rest acc (traced w (visit_events (sid, s))).
Proof.
  unfold dispatched, visit_events. simpl. unfold bind. simpl.
  destruct (is_available s) eqn:Ha; simpl; [| reflexivity].
  destruct (is_enabled s) eqn:He; simpl.
  - match goal with
    | |- context [process _ _ _ ?w0] =>
        replace w0
          with (traced w [GetAvailable sid; GetEnabled sid; CallProcess sid])
          by (unfold traced; simpl; by rewrite <- !app_assoc)
    end.
    rewrite process_frame, process_traced.
    destruct (process tp s p w).1 as [meta|e]; simpl; [| reflexivity].
    by destruct (truthy_json meta).
  - f_equal. unfold traced. simpl. by rewrite <- !app_assoc.
Qed.

(** The loop over a concatenation is the loop over its parts in sequence. *)
Lemma giffed_loop_app tp p l1 l2 : forall acc w,
  giffed_loop tp p (l1 ++ l2) acc w
  = bind (giffed_loop tp p l1 acc) (giffed_loop tp p l2) w.
Proof.
  induction l1 as [|[sid s] l1 IH]; intros acc w; [reflexivity |].
  rewrite <- app_comm_cons. unfold bind in *.
  rewrite !giffed_loop_cons.
  destruct (dispatched (sid, s)); [| apply IH].
  destruct (process tp s p w).1 as [meta|e]; [apply IH | reflexivity].
Qed.

(** The loop changes the trace only, by the events of the items it got to;
    when it returns, it got to all of them. *)
Lemma giffed_loop_visits tp p items : forall acc w r w',
  giffed_loop tp p items acc w = (r, w') ->
  exists visited,
    visited `prefix_of` items /\
    w' = traced w (flat_map visit_events visited) /\
    (forall m, r = Return m -> visited = items).
Proof.
  induction items as [|[sid s] items IH]; intros acc w r w' H.
  - inversion H; subst. exists []. simpl. by rewrite traced_nil.
  - rewrite giffed_loop_cons in H.
    assert (Hrest : forall acc1,
      giffed_loop tp p items acc1 (traced w (visit_events (sid, s))) = (r, w') ->
      exists visited,
        visited `prefix_of` (sid, s) :: items /\
        w' = traced w (flat_map visit_events visited) /\
        (forall m, r = Return m -> visited = (sid, s) :: items)).
    { intros acc1 H1. apply IH in H1 as (visited & Hp & -> & Hall).
      exists ((sid, s) :: visited). repeat split.
      - by apply prefix_cons.
      - simpl flat_map. by rewrite traced_traced.
      - intros m Hm. by rewrite (Hall m Hm). }
    destruct (dispatched (sid, s)); [| by eapply Hrest].
    destruct (process tp s p w).1 as [meta|e]; [by eapply Hrest |].
    inversion H; subst. exists [(sid, s)]. repeat split.
    + apply prefix_cons, prefix_nil.
    + simpl. by rewrite app_nil_r.
    + discriminate.
Qed.

(** The outcome of the loop does not depend on the trace. *)
Lemma giffed_loop_traced tp p items : forall acc w evs,
  (giffed_loop tp p items acc (traced w evs)).1
  = (giffed_loop tp p items acc w).1.
Proof.
  induction items as [|[sid s] items IH]; intros acc w evs; [reflexivity |].
  rewrite !giffed_loop_cons, process_traced, traced_traced.
  destruct (dispatched (sid, s)).
  - destruct (process tp s p w).1 as [meta|e]; [| reflexivity].
    by rewrite !IH.
  - rewrite IH. symmetry. apply IH.
Qed.

(** When no call to [process] fails, the loop returns. *)
Lemma giffed_loop_returns tp p items : forall acc w,
  Forall (fun item => dispatched item = true ->
                      exists meta, (process tp item.2 p w).1 = Return meta)
         items ->
  exists acc',
    giffed_loop tp p items acc w
    = (Return acc', traced w (flat_map visit_events items)).
Proof.
  induction items as [|[sid s] items IH]; intros acc w Hall.
  - exists acc. simpl. by rewrite traced_nil.
  - apply Forall_cons in Hall as [Hhd Htl]. rewrite giffed_loop_cons.
    assert (Hrest : forall acc1, exists acc',
      giffed_loop tp p items acc1 (traced w (visit_events (sid, s)))
      = (Return acc', traced w (flat_map visit_events ((sid, s) :: items)))).
    { intros acc1.
      destruct (IH acc1 (traced w (visit_events (sid, s)))) as [acc' Hacc'].
      - eapply Forall_impl; [exact Htl |]. intros item Hitem Hd.
        rewrite process_traced. by apply Hitem.
      - exists acc'. rewrite Hacc'. simpl flat_map. by rewrite traced_traced. }
    destruct (dispatched (sid, s)) eqn:Hd; [| apply Hrest].
    destruct (Hhd eq_refl) as [meta Hmeta]. simpl in Hmeta. rewrite Hmeta.
    apply Hrest.
Qed.

(** The keys of the result are keys of the accumulator or of the items. *)
Lemma giffed_loop_keys tp p items : forall acc w m w' k,
  giffed_loop tp p items acc w = (Return m, w') ->
  is_Some (m !! k) -> is_Some (acc !! k) \/ k ∈ items.*1.
Proof.
  induction items as [|[sid s] items IH]; intros acc w m w' k H Hk.
  - inversion H; subst. by left.
  - rewrite giffed_loop_cons in H. simpl.
    assert (Hrest : forall acc1 w1,
      giffed_loop tp p items acc1 w1 = (Return m, w') ->
      (is_Some (acc1 !! k) -> is_Some (acc !! k) \/ k = sid) ->
      is_Some (acc !! k) \/ k ∈ sid :: items.*1).
    { intros acc1 w1 H1 Hacc1.
      destruct (IH _ _ _ _ k H1 Hk) as [Hin|Hin].
      - destruct (Hacc1 Hin); [by left | right; subst; left].
      - right. by right. }
    destruct (dispatched (sid, s)); [| eapply Hrest; eauto].
    destruct (process tp s p w).1 as [meta|e]; [| discriminate].
    eapply Hrest; [exact H |].
    destruct (truthy_json meta); [| auto].
    destruct (decide (sid = k)) as [->|Hne]; [auto |].
    rewrite lookup_insert_ne by done. auto.
Qed.

Lemma giffed_run tp now w :
  giffed tp now w
  = bind (giffed_loop tp (payload_at now) (services w) ∅)
         (fun active => ret (Jsonify active)) w.
Proof. reflexivity. Qed.

(** The loop over items none of which passes the guard returns the
    accumulator. *)
Lemma giffed_loop_none_dispatched tp p items : forall acc w,
  Forall (fun item => dispatched item = false) items ->
  giffed_loop tp p items acc w
  = (Return acc, traced w (flat_map visit_events items)).
Proof.
  induction items as [|[sid s] items IH]; intros acc w Hall.
  - simpl. by rewrite traced_nil.
  - apply Forall_cons in Hall as [Hhd Htl].
    rewrite giffed_loop_cons, Hhd, IH by done.
    simpl flat_map. by rewrite traced_traced.
Qed.

(** In the events of the visited items, a call to [process] comes right after
    the read of [is_available] and the read of [is_enabled] of the same
    service, and both were true. *)
Lemma visit_call_preceded visited : forall evs1 sid evs2,
  flat_map visit_events visited = evs1 ++ CallProcess sid :: evs2 ->
  exists evs0 s,
    evs1 = evs0 ++ [GetAvailable sid; GetEnabled sid] /\
    (sid, s) ∈ visited /\ is_available s = true /\ is_enabled s = true.
Proof.
  induction visited as [|[k0 s0] visited IH]; intros evs1 sid evs2 H.
  - by destruct evs1.
  - change (flat_map visit_events ((k0, s0) :: visited))
      with (visit_events (k0, s0) ++ flat_map visit_events visited) in H.
    apply app_eq_inv in H as [(k & Hv & Hk)|(k & -> & Hk)].
    + destruct k as [|ev k].
      * symmetry in Hk. apply (IH []) in Hk as (evs0 & _ & Habs & _).
        by destruct evs0.
      * simpl in Hk. inversion Hk; subst ev; clear Hk.
        unfold visit_events in Hv. simpl in Hv.
        destruct (is_available s0) eqn:Ha, (is_enabled s0) eqn:He;
          destruct evs1 as [|? [|? [|? [|? ?]]]]; simplify_eq/=.
        exists [], s0. repeat split; auto. left.
    + apply IH in Hk as (evs0 & s & -> & Hin & Ha & He).
      exists (visit_events (k0, s0) ++ evs0), s.
      rewrite <- app_assoc. repeat split; auto. by right.
Qed.

(** Likewise [is_enabled] is read right after [is_available], which was
    true. *)
Lemma visit_enabled_preceded visited : forall evs1 sid evs2,
  flat_map visit_events visited = evs1 ++ GetEnabled sid :: evs2 ->
  exists evs0 s,
    evs1 = evs0 ++ [GetAvailable sid] /\
    (sid, s) ∈ visited /\ is_available s = true.
Proof.
  induction visited as [|[k0 s0] visited IH]; intros evs1 sid evs2 H.
  - by destruct evs1.
  - change (flat_map visit_events ((k0, s0) :: visited))
      with (visit_events (k0, s0) ++ flat_map visit_events visited) in H.
    apply app_eq_inv in H as [(k & Hv & Hk)|(k & -> & Hk)].
    + destruct k as [|ev k].
      * symmetry in Hk. apply (IH []) in Hk as (evs0 & _ & Habs & _).
        by destruct evs0.
      * simpl in Hk. inversion Hk; subst ev; clear Hk.
        unfold visit_events in Hv. simpl in Hv.
        destruct (is_available s0) eqn:Ha, (is_enabled s0) eqn:He;
          destruct evs1 as [|? [|? [|? [|? ?]]]]; simplify_eq/=.
        all: exists [], s0; repeat split; auto; left.
    + apply IH in Hk as (evs0 & s & -> & Hin & Ha).
      exists (visit_events (k0, s0) ++ evs0), s.
      rewrite <- app_assoc. repeat split; auto. by right.
Qed.

Lemma giffed_visits tp now w :
  exists visited,
    visited `prefix_of` services w /\
    (giffed tp now w).2 = traced w (flat_map visit_events visited).
Proof.
  rewrite giffed_run. unfold bind.
  destruct (giffed_loop tp (payload_at now) (services w) ∅ w) as [r w'] eqn:H.
  apply giffed_loop_visits in H as (visited & Hp & -> & _).
  exists visited. split; [done |]. by destruct r.
Qed.

(** C1, the counterexample: Dropbox refuses the upload; the exception leaves
    [giffed], there is no response map at all, and Tumblr, whose post would
    have been accepted, is never reached. *)
Lemma giffed_raises_on_provider_failure :
  giffed tp_dropbox_down "t" world_both
  = (Raise (RemoteError "put_file"),
     traced world_both
       [GetAvailable "dropbox"; GetEnabled "dropbox"; CallProcess "dropbox"]) /\
  dispatched ("tumblr", tumblr_on) = true /\
  (process tp_dropbox_down tumblr_on (payload_at "t") world_both).1
  = Return (JObj [("meta", JStr "created")]).
Proof. repeat split. Qed.

(** C1, as amended: [giffed] does not catch what [process] raises. When the
    services before it in the iteration pass without an exception and the
    [process] of an available and enabled service raises, that exception
    leaves [giffed]: no response map is returned and the services after it
    are not looked at; the state is otherwise unchanged. *)
Theorem giffed_process_failure_escapes
    (tp : third_party) (now : string) (w : world)
    (l1 : list (string * service)) (sid : string) (s : service)
    (l2 : list (string * service)) (e : exn) :
  services w = l1 ++ (sid, s) :: l2 ->
  Forall (fun item =>
            dispatched item = true ->
            exists meta, (process tp item.2 (payload_at now) w).1 = Return meta)
         l1 ->
  is_available s = true ->
  is_enabled s = true ->
  (process tp s (payload_at now) w).1 = Raise e ->
  giffed tp now w
  = (Raise e, traced w (flat_map visit_events (l1 ++ [(sid, s)]))).
Proof.
  intros Hs Hl1 Ha He Hp. rewrite giffed_run, Hs.
  apply bind_raise. rewrite giffed_loop_app.
  destruct (giffed_loop_returns tp (payload_at now) l1 ∅ w Hl1) as [acc Hacc].
  rewrite (bind_return _ _ _ _ _ Hacc), giffed_loop_cons.
  unfold dispatched. simpl. rewrite Ha, He. simpl.
  rewrite process_traced, Hp, traced_traced, flat_map_app. simpl.
  by rewrite app_nil_r.
Qed.

Lemma giffed_process_failure_escapes_witness :
  giffed tp_dropbox_down "t" world_both
  = (Raise (RemoteError "put_file"),
     traced world_both (flat_map visit_events [("dropbox", dropbox_on)])).
Proof.
  apply (giffed_process_failure_escapes tp_dropbox_down "t" world_both
           [] "dropbox" dropbox_on [("tumblr", tumblr_on)]).
  - reflexivity.
  - constructor.
  - reflexivity.
  - reflexivity.
  - reflexivity.
Defined.

(** C4: [giffed] reads [is_available] first, reads [is_enabled] only when
    that was true, and calls [process] only when both were true: in the trace
    every call of [process] comes right after the two reads for the same
    service, and every read of [is_enabled] right after the read of
    [is_available]. When exactly one registered service passes both checks
    and its [process] returns a non-empty result, the response map has that
    service's key and no other. *)
Theorem giffed_guard (tp : third_party) (now : string) (w : world) :
  (exists visited,
     visited `prefix_of` services w /\
     (giffed tp now w).2 = traced w (flat_map visit_events visited)) /\
  (forall evs1 sid evs2,
     trace (giffed tp now w).2 = trace w ++ evs1 ++ CallProcess sid :: evs2 ->
     exists evs0 s,
       evs1 = evs0 ++ [GetAvailable sid; GetEnabled sid] /\
       (sid, s) ∈ services w /\
       is_available s = true /\ is_enabled s = true) /\
  (forall evs1 sid evs2,
     trace (giffed tp now w).2 = trace w ++ evs1 ++ GetEnabled sid :: evs2 ->
     exists evs0 s,
       evs1 = evs0 ++ [GetAvailable sid] /\
       (sid, s) ∈ services w /\
       is_available s = true) /\
  (forall l1 a sa l2 meta,
     services w = l1 ++ (a, sa) :: l2 ->
     Forall (fun item => dispatched item = false) (l1 ++ l2) ->
     is_available sa = true ->
     is_enabled sa = true ->
     (process tp sa (payload_at now) w).1 = Return meta ->
     truthy_json meta = true ->
     (giffed tp now w).1 = Return (Jsonify {[ a := meta ]})).
Proof.
  destruct (giffed_visits tp now w) as (visited & Hp & Hw).
  assert (Hsub : forall item, item ∈ visited -> item ∈ services w).
  { intros item Hin. destruct Hp as [k ->]. apply elem_of_app. by left. }
  split; [by exists visited |]. rewrite Hw. simpl. repeat split.
  - intros evs1 sid evs2 H. apply app_inv_head in H.
    apply visit_call_preceded in H as (evs0 & s & ? & ? & ? & ?).
    exists evs0, s. auto.
  - intros evs1 sid evs2 H. apply app_inv_head in H.
    apply visit_enabled_preceded in H as (evs0 & s & ? & ? & ?).
    exists evs0, s. auto.
  - intros l1 a sa l2 meta Hs Hall Ha He Hm Ht.
    apply Forall_app in Hall as [Hl1 Hl2].
    rewrite giffed_run, Hs. unfold bind.
    rewrite giffed_loop_app.
    rewrite (bind_return _ _ _ _ _
               (giffed_loop_none_dispatched tp _ l1 ∅ w Hl1)).
    rewrite giffed_loop_cons. unfold dispatched. simpl. rewrite Ha, He. simpl.
    rewrite process_traced, Hm, Ht.
    rewrite giffed_loop_none_dispatched by done. simpl.
    by rewrite insert_empty.
Qed.

Lemma giffed_guard_witness :
  (giffed tp_ok "t" world_abc).1 = Return (Jsonify {[ "A" := meta_ok ]}).
Proof.
  apply (proj2 (proj2 (proj2 (giffed_guard tp_ok "t" world_abc)))
           [] "A" dropbox_on
           [("B", tumblr_pending); ("C", dropbox_unconfigured)] meta_ok).
  - reflexivity.
  - repeat constructor.
  - reflexivity.
  - reflexivity.
  - reflexivity.
  - reflexivity.
Defined.

(** C8: an available and enabled service whose [process] returns a false
    result ([None], an empty object, ...) leaves the outcome of [giffed] as
    it is when the loop passes over the other services only, and its key is
    not in the response map. *)
Theorem falsy_meta_omitted
    (tp : third_party) (now : string) (w : world)
    (l1 : list (string * service)) (sid : string) (s : service)
    (l2 : list (string * service)) (meta : json) :
  services w = l1 ++ (sid, s) :: l2 ->
  sid ∉ (l1 ++ l2).*1 ->
  is_available s = true ->
  is_enabled s = true ->
  (process tp s (payload_at now) w).1 = Return meta ->
  truthy_json meta = false ->
  (giffed tp now w).1
  = match (giffed_loop tp (payload_at now) (l1 ++ l2) ∅ w).1 with
    | Return active => Return (Jsonify active)
    | Raise e => Raise e
    end /\
  (forall active,
     (giffed tp now w).1 = Return (Jsonify active) -> active !! sid = None).
Proof.
  intros Hs Hnin Ha He Hm Ht.
  assert (Hskip :
    (giffed_loop tp (payload_at now) (l1 ++ (sid, s) :: l2) ∅ w).1
    = (giffed_loop tp (payload_at now) (l1 ++ l2) ∅ w).1).
  { rewrite !giffed_loop_app. unfold bind.
    destruct (giffed_loop tp (payload_at now) l1 ∅ w) as [[acc|e] w1] eqn:H1;
      [| reflexivity].
    apply giffed_loop_visits in H1 as (visited & _ & -> & _).
    rewrite giffed_loop_cons. unfold dispatched. simpl. rewrite Ha, He. simpl.
    rewrite process_traced, Hm, Ht, traced_traced.
    by rewrite !giffed_loop_traced. }
  assert (Hresp :
    (giffed tp now w).1
    = match (giffed_loop tp (payload_at now) (l1 ++ l2) ∅ w).1 with
      | Return active => Return (Jsonify active)
      | Raise e => Raise e
      end).
  { rewrite giffed_run, Hs, <- Hskip. unfold bind.
    by destruct (giffed_loop _ _ _ _ w) as [[acc|e] w1]. }
  split; [exact Hresp |].
  intros active Hact. rewrite Hresp in Hact.
  destruct (giffed_loop tp (payload_at now) (l1 ++ l2) ∅ w)
    as [[acc|e] w1] eqn:Hloop; simpl in Hact; [| discriminate].
  inversion Hact; subst acc.
  destruct (active !! sid) as [j|] eqn:Hj; [exfalso | reflexivity].
  destruct (giffed_loop_keys _ _ _ _ _ _ _ sid Hloop) as [Hin|Hin].
  - by rewrite Hj.
  - rewrite lookup_empty in Hin. by destruct Hin.
  - by apply Hnin.
Qed.

Lemma falsy_meta_omitted_witness :
  (giffed tp_dropbox_empty "t" world_both).1
  = Return (Jsonify {[ "tumblr" := JObj [("meta", JStr "created")] ]}) /\
  forall active,
    (giffed tp_dropbox_empty "t" world_both).1 = Return (Jsonify active) ->
    active !! "dropbox" = None.
Proof.
  destruct (falsy_meta_omitted tp_dropbox_empty "t" world_both
              [] "dropbox" dropbox_on [("tumblr", tumblr_on)] (JObj []))
    as [Hresp Hkey].
  - reflexivity.
  - simpl. intros Hin. apply list_elem_of_singleton in Hin. discriminate.
  - reflexivity.
  - reflexivity.
  - reflexivity.
  - reflexivity.
  - split; [| exact Hkey]. rewrite Hresp. reflexivity.
Defined.

(** * Further properties of the module *)

(** ** Item access *)

Lemma save_existing d m i :
  d !! "_id" = Some i ->
  faults m = [] ->
  save d m = (Return (i, d), {| docs := upsert i d (docs m); faults := [] |}).
Proof.
  intros Hd Hf. unfold save.
  rewrite (bind_return _ _ _ _ _ (round_trip_no_fault _ Hf)).
  unfold bind, get, put, ret. simpl. by rewrite Hd, Hf.
Qed.

Lemma save_new d m :
  d !! "_id" = None ->
  faults m = [] ->
  save d m
  = (Return (VOid (fresh_oid (docs m)),
             <["_id" := VOid (fresh_oid (docs m))]> d),
     {| docs := docs m ++ [<["_id" := VOid (fresh_oid (docs m))]> d];
        faults := [] |}).
Proof.
  intros Hd Hf. unfold save.
  rewrite (bind_return _ _ _ _ _ (round_trip_no_fault _ Hf)).
  unfold bind, get, put, ret. simpl. by rewrite Hd, Hf.
Qed.

(** A [save] that goes through hands back the dictionary it was given when
    that has an ["_id"]. *)
Lemma save_returns_same d m i j d' m' :
  save d m = (Return (i, d'), m') ->
  d !! "_id" = Some j ->
  i = j /\ d' = d.
Proof.
  unfold save, bind, get, put, ret, round_trip.
  intros H Hd. rewrite Hd in H.
  destruct (faults m) as [|[] fs]; simpl in H; inversion H; auto.
Qed.

(** The dictionary in memory after a [__setitem__] that returned. *)
Lemma setitem_config key v self m self' m' :
  Service.__setitem__ key v (self, m) = (Return tt, (self', m')) ->
  _config self' !! key = Some v /\
  (forall k, k <> key -> k <> "_id" -> _config self' !! k = _config self !! k) /\
  (forall i, key <> "_id" -> _config self !! "_id" = Some i ->
             _config self' !! "_id" = Some i) /\
  stored self' m' /\
  self' = with_config self (_config self').
Proof.
  unfold Service.__setitem__, bind, self_config, set_self_config, on_mongo.
  simpl. destruct (save _ m) as [[[i d']|e] m1] eqn:Hs; [| discriminate].
  intros H. inversion H; subst; clear H. simpl.
  pose proof (save_returns _ _ _ _ _ Hs) as (Hid & Hother & Hfind & _).
  repeat split.
  - destruct (decide (key = "_id")) as [->|Hne].
    + destruct (save_returns_same _ _ _ v _ _ Hs) as [_ ->];
        by rewrite lookup_insert_eq.
    + rewrite Hother by done. apply lookup_insert_eq.
  - intros k Hk1 Hk2. rewrite Hother by done. by apply lookup_insert_ne.
  - intros j Hne Hj.
    destruct (save_returns_same _ _ _ j _ _ Hs) as [_ ->].
    + by rewrite lookup_insert_ne.
    + by rewrite lookup_insert_ne.
  - by exists i.
Qed.

(** X1: an assignment [self[key] = v] that returns is read back by
    [self[key]], leaves every other field (and the ["_id"]) as it was, touches
    no attribute of the object, and leaves the collection holding the
    dictionary under its ["_id"]; it returns whenever the store call goes
    through. *)
Theorem setitem_then_getitem
    (self : service) (m : mongo_db) (key : string) (v : value) :
  (faults m = [] ->
   exists self' m',
     Service.__setitem__ key v (self, m) = (Return tt, (self', m'))) /\
  (forall self' m',
     Service.__setitem__ key v (self, m) = (Return tt, (self', m')) ->
     Service.__getitem__ self' key = Some v /\
     (forall k, k <> key -> k <> "_id" ->
                Service.__getitem__ self' k = Service.__getitem__ self k) /\
     (forall i, key <> "_id" -> Service.__getitem__ self "_id" = Some i ->
                Service.__getitem__ self' "_id" = Some i) /\
     klass self' = klass self /\
     client_key self' = client_key self /\
     client_secret self' = client_secret self /\
     hostname self' = hostname self /\
     stored self' m').
Proof.
  split.
  - intros Hf. destruct (setitem_no_fault key v self m Hf) as (s' & m' & H & _).
    eauto.
  - intros self' m' H.
    apply setitem_config in H as (Hv & Hother & Hid & Hst & Hself).
    unfold Service.__getitem__. rewrite Hself. simpl.
    repeat split; auto; rewrite Hself in *; auto.
Qed.

Lemma setitem_then_getitem_witness :
  exists self' m',
    Service.__setitem__ "access_token" (VStr "new")
      (dropbox_on, db [_config dropbox_on] []) = (Return tt, (self', m')) /\
    Service.__getitem__ self' "access_token" = Some (VStr "new") /\
    Service.__getitem__ self' "service_id" = Some (VStr "dropbox").
Proof.
  destruct (setitem_then_getitem dropbox_on (db [_config dropbox_on] [])
              "access_token" (VStr "new")) as [Hrun Hpost].
  destruct (Hrun eq_refl) as (self' & m' & H).
  exists self', m'. split; [exact H |].
  destruct (Hpost self' m' H) as (Hv & Hother & _).
  split; [exact Hv |].
  rewrite Hother by discriminate. reflexivity.
Defined.

(** X2: after [del self[key]], whether the write went through or failed,
    [self[key]] is [None] and the other fields are as they were; a second
    [del self[key]] finds nothing to delete, contacts no server and changes
    nothing. The key ["_id"] is the exception: the collection assigns a new
    one when the document is saved without it. *)
Theorem delitem_removes
    (self : service) (m : mongo_db) (key : string)
    (r : result unit) (self' : service) (m' : mongo_db) :
  key <> "_id" ->
  Service.__delitem__ key (self, m) = (r, (self', m')) ->
  Service.__getitem__ self' key = None /\
  (forall k, k <> key -> k <> "_id" ->
             Service.__getitem__ self' k = Service.__getitem__ self k) /\
  Service.__delitem__ key (self', m') = (Return tt, (self', m')).
Proof.
  intros Hk H.
  assert (Hgone : Service.__getitem__ self' key = None /\
                  (forall k, k <> key -> k <> "_id" ->
                     Service.__getitem__ self' k = Service.__getitem__ self k)).
  { revert H.
    unfold Service.__delitem__, Service.__getitem__, bind, self_config,
      set_self_config, on_mongo, ret. simpl.
    case_bool_decide as Hin; simpl.
    - destruct (save _ m) as [[[i d']|e] m1] eqn:Hs; intros H;
        inversion H; subst; clear H; simpl.
      + apply save_returns in Hs as (_ & Hother & _).
        split.
        * rewrite Hother by done. apply lookup_delete_eq.
        * intros k Hk1 Hk2. rewrite Hother by done. by apply lookup_delete_ne.
      + split; [apply lookup_delete_eq |].
        intros k Hk1 Hk2. by apply lookup_delete_ne.
    - intros H. inversion H; subst; clear H. split; [| done].
      destruct (_config self' !! key) eqn:E; [| done].
      exfalso. apply Hin. by eexists. }
  destruct Hgone as [Hnone Hother]. repeat split; auto.
  unfold Service.__delitem__, bind, self_config, ret. simpl.
  rewrite bool_decide_eq_false_2; [done |].
  unfold Service.__getitem__ in Hnone. rewrite Hnone. by intros [? ?].
Qed.

Lemma delitem_removes_witness :
  exists self' m',
    Service.__delitem__ "access_token"
      (dropbox_on, db [_config dropbox_on] [true])
    = (Raise PyMongoError, (self', m')) /\
    Service.__getitem__ self' "access_token" = None /\
    Service.__delitem__ "access_token" (self', m') = (Return tt, (self', m')).
Proof.
  eexists _, _. split; [reflexivity |].
  match goal with
  | |- Service.__getitem__ ?s _ = _ /\ Service.__delitem__ _ (_, ?m1) = _ =>
      destruct (delitem_removes dropbox_on (db [_config dropbox_on] [true])
                  "access_token" (Raise PyMongoError) s m1
                  ltac:(discriminate) eq_refl) as (H1 & _ & H3)
  end.
  split; [exact H1 | exact H3].
Defined.

(** ** [register] and the constructors *)

Lemma find_first_has_field k v ds d :
  find_first k v ds = Some d -> d !! k = Some v /\ d ∈ ds.
Proof.
  unfold find_first. intros H. apply find_some in H as [Hin Hd].
  split; [by apply bool_decide_eq_true in Hd | by apply list_elem_of_In].
Qed.

Lemma find_first_app_old k v ds ds' d :
  find_first k v ds = Some d -> find_first k v (ds ++ ds') = Some d.
Proof.
  unfold find_first. induction ds as [|d0 ds IH]; simpl; [discriminate |].
  destruct (has_field k v d0); auto.
Qed.

Lemma new_document_no_id sid :
  ({[ "service_id" := VStr sid ]} : document) !! "_id" = None.
Proof. by apply lookup_singleton_ne. Qed.

Lemma register_found sid m d :
  faults m = [] ->
  find_first "service_id" (VStr sid) (docs m) = Some d ->
  Service.register sid m = (Return d, m).
Proof.
  intros Hf Hd. unfold Service.register.
  rewrite (bind_return _ _ _ _ _ (find_one_no_fault _ _ _ Hf)), Hd.
  rewrite bool_decide_eq_false_2; [done |]. intros ->.
  apply find_first_has_field in Hd as [Hd _]. by rewrite lookup_empty in Hd.
Qed.

Lemma register_created sid m :
  faults m = [] ->
  find_first "service_id" (VStr sid) (docs m) = None ->
  Service.register sid m
  = (Return (<["_id" := VOid (fresh_oid (docs m))]> {[ "service_id" := VStr sid ]}),
     {| docs := docs m ++
                [<["_id" := VOid (fresh_oid (docs m))]> {[ "service_id" := VStr sid ]}];
        faults := [] |}).
Proof.
  intros Hf Hd. unfold Service.register.
  rewrite (bind_return _ _ _ _ _ (find_one_no_fault _ _ _ Hf)), Hd.
  unfold Service.register_new.
  rewrite (bind_return _ _ _ _ _ (save_new _ m (new_document_no_id sid) Hf)).
  rewrite (bind_return _ _ _ _ _
             (find_one_no_fault _ _ {| docs := _; faults := [] |} eq_refl)).
  simpl. rewrite find_first_app_new; [done | apply fresh_oid_unused |].
  apply bool_decide_eq_true. by rewrite lookup_insert_eq.
Qed.

(** X3: with the store reachable, [register] returns the document of the
    service; it creates one, at the end of the collection and with a new
    ["_id"], only when none carries the [service_id], and otherwise leaves the
    collection alone; registering again returns the same document and changes
    nothing. *)
Theorem register_idempotent (sid : string) (m : mongo_db) :
  faults m = [] ->
  exists cfg m1,
    Service.register sid m = (Return cfg, m1) /\
    cfg !! "service_id" = Some (VStr sid) /\
    Service.register sid m1 = (Return cfg, m1) /\
    match find_first "service_id" (VStr sid) (docs m) with
    | Some d => cfg = d /\ m1 = m
    | None =>
        cfg !! "_id" = Some (VOid (fresh_oid (docs m))) /\
        docs m1 = docs m ++ [cfg]
    end.
Proof.
  intros Hf.
  destruct (find_first "service_id" (VStr sid) (docs m)) as [d|] eqn:Hd.
  - exists d, m. pose proof (register_found _ _ _ Hf Hd) as Hr.
    repeat split; auto. by apply find_first_has_field in Hd as [? _].
  - eexists _, _. split; [by apply register_created |].
    split; [by rewrite lookup_insert_ne, lookup_singleton_eq |].
    split; [| split; [apply lookup_insert_eq | reflexivity]].
    apply register_found; [reflexivity |]. simpl.
    apply find_first_app_new; [exact Hd |].
    apply bool_decide_eq_true.
    by rewrite lookup_insert_ne, lookup_singleton_eq.
Qed.

Lemma register_idempotent_witness :
  exists cfg m1,
    Service.register "tumblr" (db [dropbox_doc] []) = (Return cfg, m1) /\
    Service.register "tumblr" m1 = (Return cfg, m1) /\
    docs m1 = [dropbox_doc; cfg].
Proof.
  destruct (register_idempotent "tumblr" (db [dropbox_doc] []) eq_refl)
    as (cfg & m1 & H1 & _ & H2 & H3).
  exists cfg, m1. split; [exact H1 |]. split; [exact H2 |].
  exact (proj2 H3).
Defined.

(** ** The collection under [unique_ids] *)

Lemma upsert_ids i d ds :
  d !! "_id" = Some i ->
  (exists d0, d0 ∈ ds /\ d0 !! "_id" = Some i) ->
  (fun d : document => d !! "_id") <$> upsert i d ds
  = (fun d : document => d !! "_id") <$> ds.
Proof.
  intros Hd. induction ds as [|d1 ds IH]; intros (d0 & Hin & Hd0).
  - by apply elem_of_nil in Hin.
  - simpl. unfold has_field. case_bool_decide as Hd1; simpl.
    + by rewrite Hd, Hd1.
    + f_equal. apply IH. exists d0. split; [| done].
      apply elem_of_cons in Hin as [->|Hin]; [congruence | done].
Qed.

Lemma upsert_Forall (P : document -> Prop) i d ds :
  P d -> Forall P ds -> Forall P (upsert i d ds).
Proof.
  intros Hd. induction 1 as [|d1 ds Hd1 Hds IH]; simpl.
  - by constructor.
  - destruct (has_field "_id" i d1); by constructor.
Qed.

Lemma upsert_unique i d ds :
  unique_ids ds ->
  d !! "_id" = Some i ->
  (exists d0, d0 ∈ ds /\ d0 !! "_id" = Some i) ->
  unique_ids (upsert i d ds) /\ length (upsert i d ds) = length ds.
Proof.
  intros [Hnd Hall] Hd Hex. pose proof (upsert_ids i d ds Hd Hex) as Hids.
  repeat split.
  - by rewrite Hids.
  - apply upsert_Forall; [by rewrite Hd | done].
  - apply (f_equal length) in Hids. by rewrite !length_fmap in Hids.
Qed.

Lemma append_unique d ds :
  unique_ids ds ->
  unique_ids (ds ++ [<["_id" := VOid (fresh_oid ds)]> d]).
Proof.
  intros [Hnd Hall]. split.
  - rewrite fmap_app. apply NoDup_app. repeat split; [done | |].
    + intros o Ho Hin. simpl in Hin. apply list_elem_of_singleton in Hin.
      rewrite lookup_insert_eq in Hin. subst o.
      apply list_elem_of_fmap in Ho as (d0 & Hd0 & Hin0).
      apply oid_le_fresh in Hin0. unfold oid_of in Hin0.
      rewrite <- Hd0 in Hin0. lia.
    + simpl. apply NoDup_singleton.
  - apply Forall_app. split; [done |]. constructor; [| constructor].
    rewrite lookup_insert_eq. by eexists.
Qed.

(** Under [unique_ids] the document found by its [service_id] is the one
    found by its ["_id"]. *)
Lemma find_id_of_service v ds d0 i :
  NoDup ((fun d : document => d !! "_id") <$> ds) ->
  find_first "service_id" v ds = Some d0 ->
  d0 !! "_id" = Some i ->
  find_first "_id" i ds = Some d0.
Proof.
  unfold find_first. induction ds as [|d1 ds IH]; simpl; [discriminate |].
  intros Hnd Hfind Hi. apply NoDup_cons in Hnd as [Hnotin Hnd].
  destruct (has_field "service_id" v d1) eqn:Hs.
  - inversion Hfind; subst d1. unfold has_field.
    by rewrite bool_decide_eq_true_2.
  - unfold has_field at 1. case_bool_decide as Hd1.
    + exfalso. apply Hnotin. rewrite Hd1, <- Hi.
      apply list_elem_of_fmap. exists d0. split; [done |].
      by apply (find_first_has_field "service_id" v).
    + by apply IH.
Qed.

Lemma find_service_upsert v ds d0 i d :
  NoDup ((fun d : document => d !! "_id") <$> ds) ->
  find_first "service_id" v ds = Some d0 ->
  d0 !! "_id" = Some i ->
  d !! "service_id" = Some v ->
  find_first "service_id" v (upsert i d ds) = Some d.
Proof.
  unfold find_first. induction ds as [|d1 ds IH]; simpl; [discriminate |].
  intros Hnd Hfind Hi Hd. apply NoDup_cons in Hnd as [Hnotin Hnd].
  assert (Hdv : has_field "service_id" v d = true)
    by (by apply bool_decide_eq_true).
  destruct (has_field "service_id" v d1) eqn:Hs.
  - inversion Hfind; subst d1.
    assert (Hid : has_field "_id" i d0 = true)
      by (by apply bool_decide_eq_true).
    rewrite Hid. simpl. by rewrite Hdv.
  - destruct (has_field "_id" i d1) eqn:Hd1; simpl.
    + exfalso. apply Hnotin. apply bool_decide_eq_true in Hd1.
      rewrite Hd1, <- Hi.
      apply list_elem_of_fmap. exists d0. split; [done |].
      by apply (find_first_has_field "service_id" v).
    + rewrite Hs. by apply IH.
Qed.

Lemma upsert_same i d ds :
  find_first "_id" i ds = Some d -> upsert i d ds = ds.
Proof.
  unfold find_first. induction ds as [|d1 ds IH]; simpl; [discriminate |].
  destruct (has_field "_id" i d1).
  - intros H. by inversion H.
  - intros H. f_equal. by apply IH.
Qed.

(** Saving a new version of the registered document, with the same ["_id"]
    and [service_id], replaces it where it is. *)
Lemma save_registered sid self m cfg' :
  unique_ids (docs m) ->
  faults m = [] ->
  registered sid self m ->
  cfg' !! "_id" = _config self !! "_id" ->
  cfg' !! "service_id" = Some (VStr sid) ->
  exists i m',
    save cfg' m = (Return (i, cfg'), m') /\
    faults m' = [] /\
    find_first "service_id" (VStr sid) (docs m') = Some cfg' /\
    unique_ids (docs m') /\
    length (docs m') = length (docs m).
Proof.
  intros Hu Hf Hreg Hid Hsid. unfold registered in Hreg.
  pose proof (find_first_has_field _ _ _ _ Hreg) as [_ Hin].
  destruct Hu as [Hnd Hall].
  destruct (proj1 (Forall_forall _ _) Hall _ Hin) as [i Hi].
  rewrite Hi in Hid.
  exists i, {| docs := upsert i cfg' (docs m); faults := [] |}.
  split; [by apply save_existing |]. split; [done |]. simpl.
  split; [by eapply find_service_upsert |].
  apply upsert_unique; [done | done |]. by exists (_config self).
Qed.

(** X4: what is written is what a restart reads. For a service that holds
    the registered document of a well-formed collection, an assignment or a
    deletion of a field (other than ["_id"] and ["service_id"]) replaces that
    document in place, no document is added, and a later [register] of the
    same service returns exactly the dictionary the service has in memory. *)
Theorem written_is_reloaded
    (sid : string) (self : service) (m : mongo_db) (key : string) (v : value) :
  unique_ids (docs m) ->
  faults m = [] ->
  registered sid self m ->
  key <> "_id" ->
  key <> "service_id" ->
  (exists self' m',
     Service.__setitem__ key v (self, m) = (Return tt, (self', m')) /\
     _config self' = <[key := v]> (_config self) /\
     Service.register sid m' = (Return (_config self'), m') /\
     unique_ids (docs m') /\
     length (docs m') = length (docs m)) /\
  (exists self' m',
     Service.__delitem__ key (self, m) = (Return tt, (self', m')) /\
     _config self' = delete key (_config self) /\
     Service.register sid m' = (Return (_config self'), m') /\
     unique_ids (docs m') /\
     length (docs m') = length (docs m)).
Proof.
  intros Hu Hf Hreg Hk1 Hk2.
  pose proof (find_first_has_field _ _ _ _ Hreg) as [Hsid _].
  split.
  - destruct (save_registered sid self m (<[key := v]> (_config self)) Hu Hf Hreg)
      as (i & m' & Hs & Hf' & Hfind & Hu' & Hlen).
    { by rewrite lookup_insert_ne. }
    { by rewrite lookup_insert_ne. }
    exists (with_config self (<[key := v]> (_config self))), m'.
    split.
    { unfold Service.__setitem__, bind, self_config, set_self_config, on_mongo.
      simpl. by rewrite Hs. }
    split; [done |]. split; [| done].
    by apply register_found.
  - destruct (_config self !! key) as [x|] eqn:Hx.
    + destruct (save_registered sid self m (delete key (_config self)) Hu Hf Hreg)
        as (i & m' & Hs & Hf' & Hfind & Hu' & Hlen).
      { by rewrite lookup_delete_ne. }
      { by rewrite lookup_delete_ne. }
      exists (with_config self (delete key (_config self))), m'.
      split.
      { unfold Service.__delitem__, bind, self_config, set_self_config, on_mongo.
        simpl. rewrite bool_decide_eq_true_2 by (by rewrite Hx).
        simpl. by rewrite Hs. }
      split; [done |]. split; [| done].
      by apply register_found.
    + exists self, m. split.
      { unfold Service.__delitem__, bind, self_config, ret. simpl.
        rewrite bool_decide_eq_false_2; [done |]. rewrite Hx. by intros [? ?]. }
      split; [by rewrite delete_id |].
      split; [by apply register_found | done].
Qed.

Lemma written_is_reloaded_witness :
  exists self' m',
    Service.__setitem__ "access_token" (VStr "tok")
      (dropbox_off, db [dropbox_doc; tumblr_doc] [])
    = (Return tt, (self', m')) /\
    _config self' = <["access_token" := VStr "tok"]> dropbox_doc /\
    Service.register "dropbox" m' = (Return (_config self'), m').
Proof.
  destruct (written_is_reloaded "dropbox" dropbox_off
              (db [dropbox_doc; tumblr_doc] []) "access_token" (VStr "tok"))
    as [(self' & m' & H1 & H2 & H3 & _) _].
  - split.
    + simpl. apply NoDup_cons. split.
      * intros Hin. apply list_elem_of_singleton in Hin. discriminate.
      * apply NoDup_singleton.
    + repeat constructor; by eexists.
  - reflexivity.
  - reflexivity.
  - discriminate.
  - discriminate.
  - exists self', m'. auto.
Defined.

(** ** The constructors and the registry *)

Lemma truthy_opt_str_env_set environ name :
  truthy_opt_str (environ !! name) = true <-> env_set environ name.
Proof.
  unfold env_set. destruct (environ !! name) as [[|a t]|]; simpl; split.
  - discriminate.
  - intros (v & Hv & Hne). by inversion Hv; subst.
  - intros _. by eexists.
  - done.
  - discriminate.
  - intros (v & Hv & _). discriminate.
Qed.

(** The attributes of a constructed [DropboxService]. *)
Lemma dropbox_init_attributes environ m self m' :
  DropboxService_init environ m = (Return self, m') ->
  self = {| klass := DropboxService;
            client_key := environ !! "DROPBOX_KEY";
            client_secret := environ !! "DROPBOX_SECRET";
            hostname := None;
            _config := _config self |}.
Proof.
  unfold DropboxService_init, bind.
  destruct (Service.register _ m) as [[cfg|e] m1]; [| discriminate].
  destruct (environ !! "DROPBOX_TOKEN") as [t|]; [destruct (truthy_str t) |].
  - intros H. apply construct_returns, setitem_config in H as (_ & _ & _ & _ & H).
    exact H.
  - intros H. by inversion H.
  - intros H. by inversion H.
Qed.

Lemma tumblr_init_attributes environ m self m' :
  TumblrService_init environ m = (Return self, m') ->
  self = {| klass := TumblrService;
            client_key := environ !! "TUMBLR_KEY";
            client_secret := environ !! "TUMBLR_SECRET";
            hostname := environ !! "TUMBLR_HOSTNAME";
            _config := _config self |}.
Proof.
  unfold TumblrService_init, bind, ret.
  destruct (Service.register _ m) as [[cfg|e] m1]; [| discriminate].
  intros H. by inversion H.
Qed.

(** X5: a constructed service is available exactly when its client
    credentials are set and non-empty in the environment: [DROPBOX_KEY] and
    [DROPBOX_SECRET] for Dropbox; [TUMBLR_KEY], [TUMBLR_SECRET] and
    [TUMBLR_HOSTNAME] for Tumblr. The collection plays no part. *)
Theorem availability_from_environment (environ : environment) (m : mongo_db) :
  (forall self m',
     DropboxService_init environ m = (Return self, m') ->
     (is_available self = true <->
      env_set environ "DROPBOX_KEY" /\ env_set environ "DROPBOX_SECRET")) /\
  (forall self m',
     TumblrService_init environ m = (Return self, m') ->
     (is_available self = true <->
      env_set environ "TUMBLR_KEY" /\ env_set environ "TUMBLR_SECRET" /\
      env_set environ "TUMBLR_HOSTNAME")).
Proof.
  split; intros self m' H.
  - apply dropbox_init_attributes in H. rewrite H. unfold is_available. simpl.
    rewrite andb_true_iff, !truthy_opt_str_env_set. done.
  - apply tumblr_init_attributes in H. rewrite H. unfold is_available. simpl.
    rewrite !andb_true_iff, !truthy_opt_str_env_set. tauto.
Qed.

Lemma availability_from_environment_witness :
  exists self m',
    TumblrService_init env_clients (db [] []) = (Return self, m') /\
    is_available self = true.
Proof.
  eexists _, _. split; [reflexivity |].
  eapply (proj2 (availability_from_environment env_clients (db [] [])));
    [reflexivity |].
  repeat split; eexists; (split; [reflexivity | discriminate]).
Defined.

(** X6: when the collection already holds the document of a service, its
    construction reads that document and writes nothing (for Dropbox: unless
    [DROPBOX_TOKEN] is set), so the service starts with the fields, and the
    authorization, that were persisted. *)
Theorem construction_reads_persisted
    (environ : environment) (m : mongo_db) (d : document) :
  faults m = [] ->
  (find_first "service_id" (VStr "dropbox") (docs m) = Some d ->
   ~ env_set environ "DROPBOX_TOKEN" ->
   DropboxService_init environ m
   = (Return {| klass := DropboxService;
                client_key := environ !! "DROPBOX_KEY";
                client_secret := environ !! "DROPBOX_SECRET";
                hostname := None;
                _config := d |}, m)) /\
  (find_first "service_id" (VStr "tumblr") (docs m) = Some d ->
   TumblrService_init environ m
   = (Return {| klass := TumblrService;
                client_key := environ !! "TUMBLR_KEY";
                client_secret := environ !! "TUMBLR_SECRET";
                hostname := environ !! "TUMBLR_HOSTNAME";
                _config := d |}, m)).
Proof.
  intros Hf. split.
  - intros Hd Hno. unfold DropboxService_init.
    rewrite (bind_return _ _ _ _ _ (register_found _ _ _ Hf Hd)).
    destruct (environ !! "DROPBOX_TOKEN") as [[|a t]|] eqn:Ht; simpl;
      try reflexivity.
    exfalso. apply Hno. by eexists.
  - intros Hd. unfold TumblrService_init.
    by rewrite (bind_return _ _ _ _ _ (register_found _ _ _ Hf Hd)).
Qed.

Lemma construction_reads_persisted_witness :
  exists self,
    TumblrService_init env_clients (db [_config tumblr_on] [])
    = (Return self, db [_config tumblr_on] []) /\
    is_enabled self = true.
Proof.
  eexists. split.
  - apply (proj2 (construction_reads_persisted env_clients
                    (db [_config tumblr_on] []) (_config tumblr_on) eq_refl)).
    reflexivity.
  - reflexivity.
Defined.

(** [register] on a well-formed collection: the collection stays well formed,
    grows by at most one document, keeps finding what it found before, and
    the result is the registered document. *)
Lemma register_establishes sid m :
  faults m = [] ->
  unique_ids (docs m) ->
  exists cfg m1,
    Service.register sid m = (Return cfg, m1) /\
    faults m1 = [] /\
    unique_ids (docs m1) /\
    find_first "service_id" (VStr sid) (docs m1) = Some cfg /\
    (forall k v d, find_first k v (docs m) = Some d ->
                   find_first k v (docs m1) = Some d) /\
    length (docs m1) <= S (length (docs m)).
Proof.
  intros Hf Hu.
  destruct (find_first "service_id" (VStr sid) (docs m)) as [d|] eqn:Hd.
  - exists d, m. split; [by apply register_found |].
    split; [done |]. split; [done |]. split; [done |]. split; [done | lia].
  - eexists _, _. split; [by apply register_created |]. simpl.
    split; [done |]. split; [by apply append_unique |].
    split; [| split].
    + apply find_first_app_new; [exact Hd |]. apply bool_decide_eq_true.
      by rewrite lookup_insert_ne, lookup_singleton_eq.
    + intros k v d. apply find_first_app_old.
    + rewrite length_app. simpl. lia.
Qed.

(** A [DropboxService] that holds the registered document, has the
    attributes the environment gives and already carries the token of the
    environment is what the constructor returns, and the constructor changes
    nothing. *)
Lemma dropbox_init_fixed environ m s :
  faults m = [] ->
  unique_ids (docs m) ->
  registered "dropbox" s m ->
  s = {| klass := DropboxService;
         client_key := environ !! "DROPBOX_KEY";
         client_secret := environ !! "DROPBOX_SECRET";
         hostname := None;
         _config := _config s |} ->
  (forall t, environ !! "DROPBOX_TOKEN" = Some t -> t <> "" ->
             _config s !! "access_token" = Some (VStr t)) ->
  DropboxService_init environ m = (Return s, m).
Proof.
  intros Hf Hu Hreg Hs Htok. unfold DropboxService_init.
  rewrite (bind_return _ _ _ _ _ (register_found _ _ _ Hf Hreg)). simpl.
  rewrite <- Hs.
  destruct (environ !! "DROPBOX_TOKEN") as [[|a t]|] eqn:Ht; simpl;
    try reflexivity.
  specialize (Htok _ eq_refl ltac:(discriminate)).
  pose proof (find_first_has_field _ _ _ _ Hreg) as [_ Hin].
  destruct (proj1 (Forall_forall _ _) (proj2 Hu) _ Hin) as [i Hi].
  unfold construct, Service.__setitem__, bind, self_config, set_self_config,
    on_mongo. simpl.
  rewrite (insert_id _ _ _ Htok), (save_existing _ _ _ Hi Hf).
  rewrite (upsert_same i (_config s) (docs m)).
  - simpl. destruct m as [ds fs]. simpl in Hf. subst fs.
    f_equal. by destruct s.
  - by eapply find_id_of_service; [apply Hu | exact Hreg |].
Qed.

Lemma dropbox_init_establishes environ m :
  faults m = [] ->
  unique_ids (docs m) ->
  exists s m1,
    DropboxService_init environ m = (Return s, m1) /\
    faults m1 = [] /\
    unique_ids (docs m1) /\
    registered "dropbox" s m1 /\
    (forall t, environ !! "DROPBOX_TOKEN" = Some t -> t <> "" ->
               _config s !! "access_token" = Some (VStr t)) /\
    length (docs m1) <= S (length (docs m)).
Proof.
  intros Hf Hu.
  destruct (register_establishes "dropbox" m Hf Hu)
    as (cfg & m1 & Hr & Hf1 & Hu1 & Hreg1 & _ & Hlen).
  unfold DropboxService_init. rewrite (bind_return _ _ _ _ _ Hr). simpl.
  set (self := {| klass := DropboxService; _config := cfg |}).
  assert (Hnotok : registered "dropbox" self m1) by exact Hreg1.
  destruct (environ !! "DROPBOX_TOKEN") as [[|a t]|] eqn:Ht; simpl.
  - exists self, m1. split; [reflexivity |].
    split; [done |]. split; [done |]. split; [done |]. split; [| done].
    intros t Heq Hne. by inversion Heq; subst.
  - pose proof (find_first_has_field _ _ _ _ Hreg1) as [Hsid _].
    destruct (save_registered "dropbox" self m1
                (<["access_token" := VStr (String a t)]> cfg) Hu1 Hf1 Hnotok)
      as (i & m2 & Hs & Hf2 & Hfind & Hu2 & Hlen2).
    { by rewrite lookup_insert_ne. }
    { by rewrite lookup_insert_ne. }
    exists (with_config self (<["access_token" := VStr (String a t)]> cfg)), m2.
    split.
    { unfold construct, Service.__setitem__, bind, self_config,
        set_self_config, on_mongo. simpl. by rewrite Hs. }
    split; [done |]. split; [done |]. split; [done |]. split; [| lia].
    intros t' Heq _. inversion Heq; subst. simpl. apply lookup_insert_eq.
  - exists self, m1. split; [reflexivity |].
    split; [done |]. split; [done |]. split; [done |]. split; [| done].
    discriminate.
Qed.

(** Under [unique_ids] two documents of the collection with the same
    ["_id"] are one document. *)
Lemma unique_id_doc ds (d1 d2 : document) :
  NoDup ((fun d : document => d !! "_id") <$> ds) ->
  d1 ∈ ds -> d2 ∈ ds -> d1 !! "_id" = d2 !! "_id" -> d1 = d2.
Proof.
  induction ds as [|d0 ds IH]; intros Hnd H1 H2 Hid.
  - by apply elem_of_nil in H1.
  - rewrite fmap_cons in Hnd. apply NoDup_cons in Hnd as [Hnotin Hnd].
    apply elem_of_cons in H1 as [->|H1]; apply elem_of_cons in H2 as [->|H2].
    + done.
    + exfalso. apply Hnotin. rewrite Hid.
      apply list_elem_of_fmap. by exists d2.
    + exfalso. apply Hnotin. rewrite <- Hid.
      apply list_elem_of_fmap. by exists d1.
    + by apply IH.
Qed.

(** C9: with [DROPBOX_TOKEN] set and non-empty, [DropboxService()] stores it
    as [access_token] in the dictionary and in the collection, so the service
    is enabled as soon as it is constructed, with no authorization flow; the
    construction returns when no call to the collection fails. On a
    collection with unique ["_id"]s the token overwrites whatever the
    service's document held: that document is replaced where it is by the
    same document with the new [access_token], no document is added, no
    other document carries its ["_id"], and it is the document a later
    [register] finds. *)
Theorem dropbox_token_from_environment
    (environ : environment) (m : mongo_db) (t : string) :
  environ !! "DROPBOX_TOKEN" = Some t ->
  t <> "" ->
  (faults m = [] ->
   exists self m', DropboxService_init environ m = (Return self, m')) /\
  (forall self m',
     DropboxService_init environ m = (Return self, m') ->
     klass self = DropboxService /\
     Service.__getitem__ self "access_token" = Some (VStr t) /\
     is_enabled self = true /\
     stored self m') /\
  (unique_ids (docs m) ->
   faults m = [] ->
   exists self m',
     DropboxService_init environ m = (Return self, m') /\
     registered "dropbox" self m' /\
     Service.register "dropbox" m' = (Return (_config self), m') /\
     unique_ids (docs m') /\
     forall d,
       find_first "service_id" (VStr "dropbox") (docs m) = Some d ->
       _config self = <["access_token" := VStr t]> d /\
       length (docs m') = length (docs m) /\
       (forall d', d' ∈ docs m' -> d' !! "_id" = d !! "_id" ->
                   d' = _config self)).
Proof.
  intros Ht Hne. pose proof (truthy_str_nonempty _ Hne) as Htr.
  split; [| split].
  - intros Hf. unfold DropboxService_init. rewrite Ht, Htr.
    destruct (register_lookup_after_insert (service_id DropboxService) m Hf)
      as (cfg & m1 & Hr & Hf1).
    rewrite (bind_return _ _ _ _ _ Hr).
    match goal with
    | |- context [construct ?s _ _] =>
        destruct (setitem_no_fault "access_token" (VStr t) s m1 Hf1)
          as (self' & m' & Hs & _)
    end.
    unfold construct. rewrite Hs. eauto.
  - intros self m' H. unfold DropboxService_init in H.
    rewrite Ht, Htr in H. unfold bind in H.
    destruct (Service.register _ m) as [[cfg|e] m1]; [| discriminate].
    apply construct_returns, setitem_returns in H as (Hv & _ & Hst & Hself);
      [| discriminate].
    assert (Hk : klass self = DropboxService) by (by rewrite Hself).
    repeat split; auto.
    unfold is_enabled, Service.__getitem__. rewrite Hk, Hv. exact Htr.
  - intros Hu Hf.
    destruct (find_first "service_id" (VStr "dropbox") (docs m))
      as [d|] eqn:Hd.
    + set (self0 := {| klass := DropboxService;
                       client_key := environ !! "DROPBOX_KEY";
                       client_secret := environ !! "DROPBOX_SECRET";
                       hostname := None;
                       _config := d |}).
      pose proof (find_first_has_field _ _ _ _ Hd) as [Hsid _].
      destruct (save_registered "dropbox" self0 m
                  (<["access_token" := VStr t]> d) Hu Hf Hd)
        as (i & m' & Hs & Hf' & Hfind & Hu' & Hlen).
      { by rewrite lookup_insert_ne. }
      { by rewrite lookup_insert_ne. }
      exists (with_config self0 (<["access_token" := VStr t]> d)), m'.
      split.
      { unfold DropboxService_init.
        rewrite (bind_return _ _ _ _ _ (register_found _ _ _ Hf Hd)).
        rewrite Ht, Htr.
        unfold construct, Service.__setitem__, bind, self_config,
          set_self_config, on_mongo. simpl. by rewrite Hs. }
      split; [exact Hfind |].
      split; [by apply register_found |].
      split; [exact Hu' |].
      intros d0 Hd0. inversion Hd0; subst d0.
      split; [reflexivity |]. split; [exact Hlen |].
      intros d' Hin Hid.
      apply (unique_id_doc (docs m')); [apply Hu' | exact Hin | |].
      * by apply (find_first_has_field "service_id" (VStr "dropbox")).
      * rewrite Hid. simpl. by rewrite lookup_insert_ne.
    + destruct (dropbox_init_establishes environ m Hf Hu)
        as (s0 & m1 & Hinit & Hf1 & Hu1 & Hreg & _ & _).
      exists s0, m1. split; [exact Hinit |]. split; [exact Hreg |].
      split; [by apply register_found |]. split; [exact Hu1 |].
      intros d0 Hd0. discriminate.
Qed.

Lemma dropbox_token_from_environment_witness :
  exists self m',
    DropboxService_init env_with_token
      (db [_config dropbox_on] []) = (Return self, m') /\
    Service.__getitem__ self "access_token" = Some (VStr "envtok") /\
    is_enabled self = true /\
    _config self = <["access_token" := VStr "envtok"]> (_config dropbox_on) /\
    Service.register "dropbox" m' = (Return (_config self), m') /\
    length (docs m') = 1.
Proof.
  destruct (dropbox_token_from_environment env_with_token
              (db [_config dropbox_on] []) "envtok" ltac:(reflexivity)
              ltac:(discriminate)) as (_ & Hpost & Hover).
  destruct Hover as (self & m' & H & _ & Hreg & _ & Hd).
  - split; [apply NoDup_singleton | repeat constructor; by eexists].
  - reflexivity.
  - exists self, m'. split; [exact H |].
    destruct (Hpost self m' H) as (_ & Hv & He & _).
    destruct (Hd (_config dropbox_on) eq_refl) as (Hcfg & Hlen & _).
    auto 10.
Defined.

(** X7: starting the module on a reachable, well-formed collection builds
    both services and adds at most one document for each; starting it again
    on the collection it left builds the same two services and changes
    nothing, whether or not [DROPBOX_TOKEN] is set. *)
Theorem restart_idempotent (environ : environment) (m : mongo_db) :
  faults m = [] ->
  unique_ids (docs m) ->
  exists dropbox tumblr m',
    services_init environ m
    = (Return [("dropbox", dropbox); ("tumblr", tumblr)], m') /\
    services_init environ m'
    = (Return [("dropbox", dropbox); ("tumblr", tumblr)], m') /\
    klass dropbox = DropboxService /\
    klass tumblr = TumblrService /\
    registered "dropbox" dropbox m' /\
    registered "tumblr" tumblr m' /\
    unique_ids (docs m') /\
    length (docs m') <= 2 + length (docs m).
Proof.
  intros Hf Hu.
  destruct (dropbox_init_establishes environ m Hf Hu)
    as (sd & m1 & Hd & Hf1 & Hu1 & Hregd & Htok & Hlen1).
  destruct (register_establishes "tumblr" m1 Hf1 Hu1)
    as (cfg & m2 & Hr & Hf2 & Hu2 & Hregt & Hmono & Hlen2).
  set (st := {| klass := TumblrService;
                client_key := environ !! "TUMBLR_KEY";
                client_secret := environ !! "TUMBLR_SECRET";
                hostname := environ !! "TUMBLR_HOSTNAME";
                _config := cfg |}).
  assert (Ht : TumblrService_init environ m1 = (Return st, m2)).
  { unfold TumblrService_init. by rewrite (bind_return _ _ _ _ _ Hr). }
  assert (Hregd2 : registered "dropbox" sd m2) by (by apply Hmono).
  exists sd, st, m2. split; [| split].
  - unfold services_init.
    by rewrite (bind_return _ _ _ _ _ Hd), (bind_return _ _ _ _ _ Ht).
  - unfold services_init.
    rewrite (bind_return _ _ m2 sd m2).
    + rewrite (bind_return _ _ m2 st m2); [done |].
      unfold TumblrService_init.
      by rewrite (bind_return _ _ _ _ _ (register_found _ _ _ Hf2 Hregt)).
    + apply dropbox_init_fixed; auto.
      by apply (dropbox_init_attributes environ m sd m1).
  - pose proof (dropbox_init_attributes _ _ _ _ Hd) as Hattr.
    split; [by rewrite Hattr |]. split; [done |]. split; [done |].
    split; [done |]. split; [done | lia].
Qed.

Lemma restart_idempotent_witness :
  exists dropbox tumblr m',
    services_init env_with_token (db [] [])
    = (Return [("dropbox", dropbox); ("tumblr", tumblr)], m') /\
    services_init env_with_token m'
    = (Return [("dropbox", dropbox); ("tumblr", tumblr)], m') /\
    length (docs m') <= 2.
Proof.
  destruct (restart_idempotent env_with_token (db [] []) eq_refl)
    as (sd & st & m' & H1 & H2 & _ & _ & _ & _ & _ & Hlen).
  - split; [apply NoDup_nil_2 | constructor].
  - exists sd, st, m'. auto.
Defined.

(** ** The logout views *)

Lemma assoc_set_keys sid s' l : (assoc_set sid s' l).*1 = l.*1.
Proof.
  induction l as [|[k x] l IH]; [done |].
  cbn [assoc_set]. case_bool_decide; rewrite !fmap_cons; [done |].
  by rewrite IH.
Qed.

Lemma assoc_set_same sid s l :
  assoc sid l = Some s -> assoc_set sid s l = l.
Proof.
  induction l as [|[k x] l IH]; simpl; [done |].
  case_bool_decide as Hk; simpl.
  - intros Hs. by inversion Hs.
  - intros Hs. by rewrite IH.
Qed.

Lemma assoc_elem sid s l :
  NoDup l.*1 -> (sid, s) ∈ l -> assoc sid l = Some s.
Proof.
  induction l as [|[k x] l IH]; simpl; intros Hnd Hin.
  - by apply elem_of_nil in Hin.
  - apply NoDup_cons in Hnd as [Hk Hnd].
    apply elem_of_cons in Hin as [Heq|Hin].
    + inversion Heq; subst. by rewrite bool_decide_eq_true_2.
    + rewrite bool_decide_eq_false_2; [by apply IH |].
      intros ->. apply Hk. apply list_elem_of_fmap. by exists (sid, s).
Qed.

Lemma not_enabled_without_token s :
  _config s !! "access_token" = None -> is_enabled s = false.
Proof.
  intros H. unfold is_enabled, Service.__getitem__. rewrite H.
  by destruct (klass s).
Qed.

(** [del services[sid]['access_token']], whatever its outcome. *)
Lemma call_delete_token sid w r w' :
  call sid (Service.__delitem__ "access_token") w = (r, w') ->
  (services w').*1 = (services w).*1 /\
  (forall s', assoc sid (services w') = Some s' -> is_enabled s' = false).
Proof.
  unfold call. destruct (assoc sid (services w)) as [s|] eqn:Ha.
  - destruct (Service.__delitem__ "access_token" (s, mongo w))
      as [r0 [s1 m1]] eqn:Hd.
    intros H. inversion H; subst; clear H. simpl.
    split; [apply assoc_set_keys |].
    intros s' Hs'. rewrite (assoc_set_eq _ _ _ _ Ha) in Hs'.
    inversion Hs'; subst s'.
    apply delitem_removes in Hd as (Hnone & _); [| discriminate].
    by apply not_enabled_without_token.
  - intros H. inversion H; subst. split; [done |]. intros s' Hs'. congruence.
Qed.

(** The body shared by the two logout views. *)
Lemma logout_outcome sid w r w' :
  (call sid (Service.__delitem__ "access_token") ;;;
   settings <- url_for "settings" ;;
   ret (Redirect settings)) w = (r, w') ->
  (services w').*1 = (services w).*1 /\
  (forall s', assoc sid (services w') = Some s' -> is_enabled s' = false).
Proof.
  unfold bind at 1.
  destruct (call sid _ w) as [[[]|e] w1] eqn:Hc.
  - intros H. inversion H; subst. by eapply call_delete_token.
  - intros H. inversion H; subst. by eapply call_delete_token.
Qed.

Lemma logout_returns sid w s :
  assoc sid (services w) = Some s ->
  (faults (mongo w) = [] ->
   exists w',
     (call sid (Service.__delitem__ "access_token") ;;;
      settings <- url_for "settings" ;;
      ret (Redirect settings)) w = (Return (Redirect "/settings"), w')) /\
  (_config s !! "access_token" = None ->
   (call sid (Service.__delitem__ "access_token") ;;;
    settings <- url_for "settings" ;;
    ret (Redirect settings)) w = (Return (Redirect "/settings"), w)).
Proof.
  intros Ha. split.
  - intros Hf.
    destruct (delitem_no_fault "access_token" s (mongo w) Hf ltac:(discriminate))
      as (s' & m' & Hd & _).
    eexists. by rewrite (bind_return _ _ _ _ _ (call_run _ _ _ _ _ _ _ Ha Hd)).
  - intros Hnone.
    assert (Hd : Service.__delitem__ "access_token" (s, mongo w)
                 = (Return tt, (s, mongo w))).
    { unfold Service.__delitem__, bind, self_config, ret. simpl.
      rewrite bool_decide_eq_false_2; [done |]. rewrite Hnone. by intros [? ?]. }
    rewrite (bind_return _ _ _ _ _ (call_run _ _ _ _ _ _ _ Ha Hd)).
    rewrite (assoc_set_same _ _ _ Ha). by destruct w.
Qed.

(** X8: after [dropbox_logout] or [tumblr_logout], whether the write went
    through or failed, the service is not enabled. With the store reachable
    the view answers with a redirect to the settings page; for a service that
    holds no access token it does so without contacting the store and without
    changing anything. *)
Theorem logout_disables (w : world) :
  (forall r w' s',
     dropbox_logout w = (r, w') ->
     assoc "dropbox" (services w') = Some s' -> is_enabled s' = false) /\
  (forall r w' s',
     tumblr_logout w = (r, w') ->
     assoc "tumblr" (services w') = Some s' -> is_enabled s' = false) /\
  (forall s,
     assoc "dropbox" (services w) = Some s ->
     (faults (mongo w) = [] ->
      exists w', dropbox_logout w = (Return (Redirect "/settings"), w')) /\
     (_config s !! "access_token" = None ->
      dropbox_logout w = (Return (Redirect "/settings"), w))) /\
  (forall s,
     assoc "tumblr" (services w) = Some s ->
     (faults (mongo w) = [] ->
      exists w', tumblr_logout w = (Return (Redirect "/settings"), w')) /\
     (_config s !! "access_token" = None ->
      tumblr_logout w = (Return (Redirect "/settings"), w))).
Proof.
  split; [| split; [| split]].
  - intros r w' s' H. by apply (logout_outcome "dropbox" w r w').
  - intros r w' s' H. by apply (logout_outcome "tumblr" w r w').
  - intros s Ha. by apply (logout_returns "dropbox").
  - intros s Ha. by apply (logout_returns "tumblr").
Qed.

Lemma logout_disables_witness :
  exists w' s',
    tumblr_logout world_both = (Return (Redirect "/settings"), w') /\
    assoc "tumblr" (services w') = Some s' /\
    is_enabled s' = false.
Proof.
  destruct (logout_disables world_both) as (_ & Hdis & _ & Hrun).
  destruct (Hrun tumblr_on eq_refl) as [Hret _].
  destruct (Hret eq_refl) as [w' Hw'].
  assert (Ha : exists s', assoc "tumblr" (services w') = Some s').
  { vm_compute in Hw'. inversion Hw'; subst. by eexists. }
  destruct Ha as [s' Hs']. exists w', s'.
  split; [exact Hw' |]. split; [exact Hs' |].
  exact (Hdis _ _ _ Hw' Hs').
Defined.

(** X9: once a service has been logged out, [giffed] does not call its
    [process] (the keys of [services] being distinct, as those of a
    dictionary are). *)
Theorem logout_stops_dispatch
    (w : world) (tp : third_party) (now : string)
    (r : result response) (w' : world) (evs : list event) :
  NoDup (services w).*1 ->
  (dropbox_logout w = (r, w') ->
   trace (giffed tp now w').2 = trace w' ++ evs ->
   CallProcess "dropbox" ∉ evs) /\
  (tumblr_logout w = (r, w') ->
   trace (giffed tp now w').2 = trace w' ++ evs ->
   CallProcess "tumblr" ∉ evs).
Proof.
  intros Hnd.
  assert (Hgen : forall sid,
    (services w').*1 = (services w).*1 ->
    (forall s', assoc sid (services w') = Some s' -> is_enabled s' = false) ->
    trace (giffed tp now w').2 = trace w' ++ evs ->
    CallProcess sid ∉ evs).
  { intros sid Hkeys Hdis Htr Hin.
    destruct (giffed_visits tp now w') as (visited & [k Hk] & Hw).
    rewrite Hw in Htr. simpl in Htr. apply app_inv_head in Htr. subst evs.
    apply list_elem_of_split in Hin as (evs1 & evs2 & Hsplit).
    apply visit_call_preceded in Hsplit as (_ & s & _ & Hs & _ & He).
    assert (Ha : assoc sid (services w') = Some s).
    { apply assoc_elem; [by rewrite Hkeys |]. rewrite Hk.
      apply elem_of_app. by left. }
    rewrite (Hdis _ Ha) in He. discriminate. }
  split; intros Hout; apply logout_outcome in Hout as [Hkeys Hdis];
    by apply Hgen.
Qed.

Lemma logout_stops_dispatch_witness :
  CallProcess "dropbox"
  ∉ [GetAvailable "dropbox"; GetEnabled "dropbox"; GetAvailable "tumblr";
      GetEnabled "tumblr"; CallProcess "tumblr"].
Proof.
  refine (proj1 (logout_stops_dispatch world_both tp_ok "t"
                   (dropbox_logout world_both).1 (dropbox_logout world_both).2
                   _ _) _ _).
  - apply (NoDup_cons_2 "dropbox"); [| apply NoDup_singleton].
    intros Hin. apply list_elem_of_singleton in Hin. discriminate.
  - reflexivity.
  - reflexivity.
Defined.

(** ** The Tumblr flow *)

Lemma flow_of_with_config s d : flow_of (with_config s d) = flow_of s.
Proof. reflexivity. Qed.

(** An assignment through the registry, with the store reachable. *)
Lemma call_setitem sid key v w s :
  assoc sid (services w) = Some s ->
  faults (mongo w) = [] ->
  exists w' s',
    call sid (Service.__setitem__ key v) w = (Return tt, w') /\
    faults (mongo w') = [] /\
    assoc sid (services w') = Some s' /\
    s' = with_config s (_config s') /\
    _config s' !! key = Some v /\
    (forall k, k <> key -> k <> "_id" -> _config s' !! k = _config s !! k) /\
    stored s' (mongo w').
Proof.
  intros Ha Hf.
  destruct (setitem_no_fault key v s (mongo w) Hf) as (s' & m' & Hs & Hf').
  pose proof (setitem_config _ _ _ _ _ _ Hs) as (Hv & Hother & _ & Hst & Hself).
  eexists _, s'. split; [by apply (call_run _ _ _ _ _ _ _ Ha Hs) |]. simpl.
  split; [done |]. split; [by apply (assoc_set_eq _ s) |]. auto.
Qed.

(** A deletion through the registry, with the store reachable. *)
Lemma call_delitem sid key w s :
  assoc sid (services w) = Some s ->
  faults (mongo w) = [] ->
  key <> "_id" ->
  exists w' s',
    call sid (Service.__delitem__ key) w = (Return tt, w') /\
    faults (mongo w') = [] /\
    assoc sid (services w') = Some s' /\
    s' = with_config s (_config s') /\
    _config s' !! key = None /\
    (forall k, k <> key -> k <> "_id" -> _config s' !! k = _config s !! k) /\
    (stored s (mongo w) -> stored s' (mongo w')).
Proof.
  intros Ha Hf Hk.
  destruct (delitem_no_fault key s (mongo w) Hf Hk)
    as (s' & m' & Hd & Hf' & Hnone & Hother & Hst & Hself).
  eexists _, s'. split; [by apply (call_run _ _ _ _ _ _ _ Ha Hd) |]. simpl.
  split; [done |]. split; [by apply (assoc_set_eq _ s) |]. auto.
Qed.

Lemma tumblr_auth_returns leg w ts rt rs :
  assoc "tumblr" (services w) = Some ts ->
  klass ts = TumblrService ->
  faults (mongo w) = [] ->
  get_request_token leg (flow_of ts) = Return (rt, rs) ->
  exists w' ts',
    tumblr_auth leg w
    = (Return (Redirect (get_authorize_url leg (flow_of ts) rt)), w') /\
    faults (mongo w') = [] /\
    assoc "tumblr" (services w') = Some ts' /\
    klass ts' = TumblrService /\
    flow_of ts' = flow_of ts /\
    _config ts' !! "request_token" = Some (VStr rt) /\
    _config ts' !! "request_secret" = Some (VStr rs) /\
    _config ts' !! "access_token" = _config ts !! "access_token" /\
    stored ts' (mongo w').
Proof.
  intros Ha Hk Hf Hreq.
  destruct (call_setitem "tumblr" "request_token" (VStr rt) w ts Ha Hf)
    as (w1 & ts1 & Hc1 & Hf1 & Ha1 & Hs1 & Hv1 & Ho1 & _).
  destruct (call_setitem "tumblr" "request_secret" (VStr rs) w1 ts1 Ha1 Hf1)
    as (w2 & ts2 & Hc2 & Hf2 & Ha2 & Hs2 & Hv2 & Ho2 & Hst2).
  exists w2, ts2. split.
  - unfold tumblr_auth.
    rewrite (bind_return _ _ _ _ _ (services_get_found _ _ _ Ha)).
    rewrite (bind_return _ _ _ _ _ (tumblr_auth_flow_found _ _ Ha Hk)).
    rewrite Hreq. rewrite (bind_return _ _ w (rt, rs) w) by reflexivity.
    simpl. rewrite (bind_return _ _ _ _ _ Hc1).
    by rewrite (bind_return _ _ _ _ _ Hc2).
  - split; [done |]. split; [done |].
    split; [by rewrite Hs2, Hs1 |].
    split; [by rewrite Hs2, Hs1 |].
    split; [by rewrite Ho2 |]. split; [done |].
    split; [by rewrite Ho2, Ho1 | done].
Qed.

(** X10: [tumblr_auth] asks for a request token, stores the token and its
    secret in the service's document (in memory and in the collection),
    leaves the access token as it was, and redirects to the authorize URL of
    that token. When the request-token call fails, its exception leaves the
    view and nothing has changed. *)
Theorem tumblr_auth_stores_request_token
    (leg : request_leg) (w : world) (ts : service) :
  assoc "tumblr" (services w) = Some ts ->
  klass ts = TumblrService ->
  (forall e,
     get_request_token leg (flow_of ts) = Raise e ->
     tumblr_auth leg w = (Raise e, w)) /\
  (forall rt rs,
     get_request_token leg (flow_of ts) = Return (rt, rs) ->
     faults (mongo w) = [] ->
     exists w' ts',
       tumblr_auth leg w
       = (Return (Redirect (get_authorize_url leg (flow_of ts) rt)), w') /\
       assoc "tumblr" (services w') = Some ts' /\
       Service.__getitem__ ts' "request_token" = Some (VStr rt) /\
       Service.__getitem__ ts' "request_secret" = Some (VStr rs) /\
       Service.__getitem__ ts' "access_token"
       = Service.__getitem__ ts "access_token" /\
       stored ts' (mongo w')).
Proof.
  intros Ha Hk. split.
  - intros e He. unfold tumblr_auth.
    rewrite (bind_return _ _ _ _ _ (services_get_found _ _ _ Ha)).
    rewrite (bind_return _ _ _ _ _ (tumblr_auth_flow_found _ _ Ha Hk)).
    rewrite He. reflexivity.
  - intros rt rs Hreq Hf.
    destruct (tumblr_auth_returns leg w ts rt rs Ha Hk Hf Hreq)
      as (w' & ts' & H & _ & Ha' & _ & _ & Hrt & Hrs & Hat & Hst).
    exists w', ts'. auto 10.
Qed.

Lemma tumblr_auth_stores_request_token_witness :
  exists w' ts',
    tumblr_auth leg_ok world_start
    = (Return (Redirect
                 "http://www.tumblr.com/oauth/authorize?oauth_token=rt"), w') /\
    assoc "tumblr" (services w') = Some ts' /\
    Service.__getitem__ ts' "request_token" = Some (VStr "rt") /\
    Service.__getitem__ ts' "request_secret" = Some (VStr "rs").
Proof.
  destruct (tumblr_auth_stores_request_token leg_ok world_start
              (mk_service TumblrService (Some "key") (Some "secret")
                 (Some "blog.example") tumblr_doc) eq_refl eq_refl)
    as [_ Hok].
  destruct (Hok "rt" "rs" eq_refl eq_refl)
    as (w' & ts' & H & Ha & Hrt & Hrs & _).
  exists w', ts'. auto.
Defined.

(** The callback when the exchange succeeds and the store is reachable. *)
Lemma tumblr_callback_returns tp args w ts token verifier a b :
  args !! "oauth_token" = Some token ->
  args !! "oauth_verifier" = Some verifier ->
  token <> "" ->
  verifier <> "" ->
  assoc "tumblr" (services w) = Some ts ->
  klass ts = TumblrService ->
  faults (mongo w) = [] ->
  get_access_token tp (flow_of ts) (_config ts !! "request_token")
    (_config ts !! "request_secret") verifier = Return (a, b) ->
  exists w' ts',
    tumblr_callback tp args w = (Return (Redirect "/settings"), w') /\
    assoc "tumblr" (services w') = Some ts' /\
    klass ts' = TumblrService /\
    _config ts' !! "request_token" = None /\
    _config ts' !! "request_secret" = None /\
    _config ts' !! "access_token" = Some (VList [a; b]) /\
    stored ts' (mongo w').
Proof.
  intros Ht Hv Htne Hvne Ha Hk Hf He.
  destruct (call_setitem "tumblr" "access_token" (VList [a; b]) w ts Ha Hf)
    as (w1 & ts1 & Hc1 & Hf1 & Ha1 & Hs1 & Hv1 & _ & Hst1).
  destruct (call_delitem "tumblr" "request_token" w1 ts1 Ha1 Hf1
              ltac:(discriminate))
    as (w2 & ts2 & Hc2 & Hf2 & Ha2 & Hs2 & Hn2 & Ho2 & Hst2).
  destruct (call_delitem "tumblr" "request_secret" w2 ts2 Ha2 Hf2
              ltac:(discriminate))
    as (w3 & ts3 & Hc3 & Hf3 & Ha3 & Hs3 & Hn3 & Ho3 & Hst3).
  exists w3, ts3. split.
  - unfold tumblr_callback. rewrite Ht, Hv. simpl.
    rewrite (truthy_str_nonempty _ Htne), (truthy_str_nonempty _ Hvne). simpl.
    rewrite (bind_return _ _ w tt w3); [reflexivity |].
    rewrite (bind_return _ _ _ _ _ (services_get_found _ _ _ Ha)).
    rewrite (bind_return _ _ _ _ _ (tumblr_auth_flow_found _ _ Ha Hk)).
    unfold Service.__getitem__. rewrite He.
    rewrite (bind_return _ _ w (a, b) w) by reflexivity. simpl.
    rewrite (bind_return _ _ _ _ _ Hc1).
    by rewrite (bind_return _ _ _ _ _ Hc2).
  - split; [done |]. split; [by rewrite Hs3, Hs2, Hs1 |].
    split; [by rewrite Ho3 |]. split; [done |].
    split; [by rewrite Ho3, Ho2 | auto].
Qed.

(** X11: the two legs of the Tumblr flow fit together. After [tumblr_auth],
    a callback that carries a token and a verifier hands
    [get_access_token] exactly the request token and secret that
    [tumblr_auth] stored; when the exchange succeeds the service ends up
    enabled, holding the new access token and neither request field. *)
Theorem tumblr_flow_round_trip
    (leg : request_leg) (tp : third_party) (args : query) (w : world)
    (ts : service) (rt rs token verifier a b : string) :
  assoc "tumblr" (services w) = Some ts ->
  klass ts = TumblrService ->
  faults (mongo w) = [] ->
  get_request_token leg (flow_of ts) = Return (rt, rs) ->
  args !! "oauth_token" = Some token ->
  args !! "oauth_verifier" = Some verifier ->
  token <> "" ->
  verifier <> "" ->
  get_access_token tp (flow_of ts) (Some (VStr rt)) (Some (VStr rs)) verifier
  = Return (a, b) ->
  exists w1 w2 ts2,
    tumblr_auth leg w
    = (Return (Redirect (get_authorize_url leg (flow_of ts) rt)), w1) /\
    tumblr_callback tp args w1 = (Return (Redirect "/settings"), w2) /\
    assoc "tumblr" (services w2) = Some ts2 /\
    is_enabled ts2 = true /\
    Service.__getitem__ ts2 "access_token" = Some (VList [a; b]) /\
    Service.__getitem__ ts2 "request_token" = None /\
    Service.__getitem__ ts2 "request_secret" = None /\
    stored ts2 (mongo w2).
Proof.
  intros Ha Hk Hf Hreq Ht Hv Htne Hvne Hex.
  destruct (tumblr_auth_returns leg w ts rt rs Ha Hk Hf Hreq)
    as (w1 & ts1 & H1 & Hf1 & Ha1 & Hk1 & Hflow & Hrt & Hrs & _ & _).
  destruct (tumblr_callback_returns tp args w1 ts1 token verifier a b
              Ht Hv Htne Hvne Ha1 Hk1 Hf1)
    as (w2 & ts2 & H2 & Ha2 & Hk2 & Hn1 & Hn2 & Hat & Hst).
  { by rewrite Hflow, Hrt, Hrs. }
  exists w1, w2, ts2. split; [done |]. split; [done |]. split; [done |].
  split; [| auto].
  unfold is_enabled, Service.__getitem__. by rewrite Hk2, Hat.
Qed.

Lemma tumblr_flow_round_trip_witness :
  exists w1 w2 ts2,
    tumblr_auth leg_ok world_start
    = (Return (Redirect
                 "http://www.tumblr.com/oauth/authorize?oauth_token=rt"), w1) /\
    tumblr_callback tp_ok args_complete w1
    = (Return (Redirect "/settings"), w2) /\
    assoc "tumblr" (services w2) = Some ts2 /\
    is_enabled ts2 = true.
Proof.
  destruct (tumblr_flow_round_trip leg_ok tp_ok args_complete world_start
              (mk_service TumblrService (Some "key") (Some "secret")
                 (Some "blog.example") tumblr_doc)
              "rt" "rs" "rt" "v" "at" "as"
              eq_refl eq_refl eq_refl eq_refl eq_refl eq_refl
              ltac:(discriminate) ltac:(discriminate) eq_refl)
    as (w1 & w2 & ts2 & H1 & H2 & Ha & He & _).
  exists w1, w2, ts2. auto.
Defined.

(** ** The Dropbox callback *)

(** X12: [dropbox_callback] can never complete an authorization. Whatever
    the request holds and whatever Dropbox would answer, the lookup of the
    unbound name [get_auth_flow] raises [NameError], the view answers with
    status 500, and the module state, the stored credential included, is
    exactly what it was. *)
Theorem dropbox_callback_never_completes
    (tp : third_party) (args : query) (w : world) :
  (dropbox_callback tp args w).1 = Raise (NameError "get_auth_flow") /\
  status (dropbox_callback tp args w).1 = 500%Z /\
  (dropbox_callback tp args w).2 = w.
Proof. repeat split. Qed.

(** X13: the [except] clauses of [dropbox_callback] never produce a
    response: each of them ends in an exception, with the module state as it
    was. An exception that is not one of the five of [DropboxOAuth2Flow]
    passes through unchanged; the clause for [NotApprovedException] fails in
    [flash], which raises [RuntimeError] because the application has no
    secret key, and the clause for [ProviderException] fails on the string
    concatenation with [TypeError], so both end with status 500. *)
Theorem dropbox_callback_except_never_responds (e : exn) (w : world) :
  (exists e', dropbox_callback_except e w = (Raise e', w)) /\
  ((forall f, e <> FlowException f) ->
   dropbox_callback_except e w = (Raise e, w)) /\
  (exists msg,
     (dropbox_callback_except (FlowException NotApprovedException) w).1
     = Raise (RuntimeError msg)) /\
  (exists msg,
     (dropbox_callback_except (FlowException ProviderException) w).1
     = Raise (TypeError msg)) /\
  status (dropbox_callback_except (FlowException NotApprovedException) w).1
  = 500%Z /\
  status (dropbox_callback_except (FlowException ProviderException) w).1
  = 500%Z.
Proof.
  split; [| split].
  - destruct e; try (by eexists).
    match goal with f : flow_exn |- _ => destruct f end; by eexists.
  - intros Hne. destruct e; try reflexivity.
    match goal with f : flow_exn |- _ => by destruct (Hne f) end.
  - repeat split; by eexists.
Qed.

Lemma dropbox_callback_except_never_responds_witness :
  dropbox_callback_except (KeyError "dropbox") world_both
  = (Raise (KeyError "dropbox"), world_both).
Proof.
  apply (proj1 (proj2 (dropbox_callback_except_never_responds
                         (KeyError "dropbox") world_both))).
  discriminate.
Defined.

(** ** The response of [giffed] *)

Lemma giffed_loop_map tp p items : forall acc w m w',
  NoDup items.*1 ->
  (forall k, is_Some (acc !! k) -> k ∉ items.*1) ->
  giffed_loop tp p items acc w = (Return m, w') ->
  forall k meta,
    m !! k = Some meta <->
    acc !! k = Some meta \/
    exists s, (k, s) ∈ items /\ dispatched (k, s) = true /\
              (process tp s p w).1 = Return meta /\ truthy_json meta = true.
Proof.
  induction items as [|[sid s] items IH]; intros acc w m w' Hnd Hacc H k meta.
  - inversion H; subst. split; [by left |]. intros [?|(s & Hin & _)]; [done |].
    by apply elem_of_nil in Hin.
  - rewrite fmap_cons in Hnd. apply NoDup_cons in Hnd as [Hsid Hnd].
    rewrite giffed_loop_cons in H.
    assert (Hnone : acc !! sid = None).
    { destruct (acc !! sid) eqn:E; [| done]. exfalso.
      apply (Hacc sid); [by rewrite E | rewrite fmap_cons; left]. }
    assert (Htail : forall acc1,
      (forall k, is_Some (acc1 !! k) -> k ∉ items.*1) ->
      giffed_loop tp p items acc1 (traced w (visit_events (sid, s)))
      = (Return m, w') ->
      m !! k = Some meta <->
      acc1 !! k = Some meta \/
      exists s0, (k, s0) ∈ items /\ dispatched (k, s0) = true /\
                 (process tp s0 p w).1 = Return meta /\
                 truthy_json meta = true).
    { intros acc1 Hacc1 H1. rewrite (IH _ _ _ _ Hnd Hacc1 H1 k meta).
      by setoid_rewrite process_traced. }
    assert (Hacc' : forall k0, is_Some (acc !! k0) -> k0 ∉ items.*1).
    { intros k0 Hk0 Hin. apply (Hacc k0 Hk0). rewrite fmap_cons. by right. }
    assert (Hin_items : forall s0, (k, s0) ∈ items -> k <> sid).
    { intros s0 Hin ->. apply Hsid. apply list_elem_of_fmap. by exists (sid, s0). }
    destruct (dispatched (sid, s)) eqn:Hd.
    + destruct (process tp s p w).1 as [meta0|e] eqn:Hp; [| discriminate].
      destruct (truthy_json meta0) eqn:Ht.
      * rewrite (Htail (<[sid := meta0]> acc)); [| | exact H].
        -- split.
           ++ intros [Hk|(s0 & Hin & Hrest)].
              ** destruct (decide (sid = k)) as [<-|Hne].
                 --- rewrite lookup_insert_eq in Hk. inversion Hk; subst.
                     right. exists s. split; [left | auto].
                 --- rewrite lookup_insert_ne in Hk by done. by left.
              ** right. exists s0. split; [by right | done].
           ++ intros [Hk|(s0 & Hin & Hd0 & Hp0 & Ht0)].
              ** left. rewrite lookup_insert_ne; [done |]. intros <-. congruence.
              ** apply elem_of_cons in Hin as [Heq|Hin].
                 --- inversion Heq; subst. left. rewrite lookup_insert_eq.
                     congruence.
                 --- right. by exists s0.
        -- intros k0 Hk0 Hin.
           destruct (decide (sid = k0)) as [<-|Hne]; [done |].
           rewrite lookup_insert_ne in Hk0 by done. by apply (Hacc' k0).
      * rewrite (Htail acc Hacc' H). split.
        -- intros [Hk|(s0 & Hin & Hrest)]; [by left |].
           right. exists s0. split; [by right | done].
        -- intros [Hk|(s0 & Hin & Hd0 & Hp0 & Ht0)]; [by left |].
           apply elem_of_cons in Hin as [Heq|Hin].
           ++ inversion Heq; subst. congruence.
           ++ right. by exists s0.
    + rewrite (Htail acc Hacc' H). split.
      * intros [Hk|(s0 & Hin & Hrest)]; [by left |].
        right. exists s0. split; [by right | done].
      * intros [Hk|(s0 & Hin & Hd0 & Hp0 & Ht0)]; [by left |].
        apply elem_of_cons in Hin as [Heq|Hin].
        -- inversion Heq; subst. congruence.
        -- right. by exists s0.
Qed.

(** X14: when no call to [process] fails, [giffed] answers with a map that
    holds, under its key, the result of every service that is available and
    enabled and whose [process] returned a true value, and nothing else (the
    keys of [services] being distinct). *)
Theorem giffed_result_map (tp : third_party) (now : string) (w : world) :
  NoDup (services w).*1 ->
  Forall (fun item =>
            dispatched item = true ->
            exists meta, (process tp item.2 (payload_at now) w).1 = Return meta)
         (services w) ->
  exists active,
    (giffed tp now w).1 = Return (Jsonify active) /\
    forall sid meta,
      active !! sid = Some meta <->
      exists s, (sid, s) ∈ services w /\
                is_available s = true /\ is_enabled s = true /\
                (process tp s (payload_at now) w).1 = Return meta /\
                truthy_json meta = true.
Proof.
  intros Hnd Hall.
  destruct (giffed_loop_returns tp (payload_at now) (services w) ∅ w Hall)
    as [active Hloop].
  exists active. split.
  - rewrite giffed_run. by rewrite (bind_return _ _ _ _ _ Hloop).
  - intros sid meta.
    assert (Hempty : forall k, is_Some ((∅ : gmap string json) !! k) ->
                               k ∉ (services w).*1).
    { intros k [x Hx]. by rewrite lookup_empty in Hx. }
    rewrite (giffed_loop_map _ _ _ _ _ _ _ Hnd Hempty Hloop).
    rewrite lookup_empty. split.
    + intros [?|(s & Hin & Hd & Hp & Ht)]; [done |].
      unfold dispatched in Hd. apply andb_true_iff in Hd as [? ?].
      by exists s.
    + intros (s & Hin & Ha & He & Hp & Ht). right. exists s.
      unfold dispatched. simpl. by rewrite Ha, He.
Qed.

Lemma giffed_result_map_witness :
  exists active,
    (giffed tp_ok "t" world_both).1 = Return (Jsonify active) /\
    active !! "dropbox" = Some meta_ok.
Proof.
  destruct (giffed_result_map tp_ok "t" world_both) as (active & Hresp & Hmap).
  - apply (NoDup_cons_2 "dropbox"); [| apply NoDup_singleton].
    intros Hin. apply list_elem_of_singleton in Hin. discriminate.
  - repeat constructor; intros _; by eexists.
  - exists active. split; [exact Hresp |].
    apply Hmap. exists dropbox_on. split; [left |]. by repeat split.
Defined.

(** ** A failed write and the next start *)

(** X15: a write that fails is lost at the next start. When the store
    rejects the write of [self[key] = v], the service goes on with the new
    value in memory, while the collection still holds the document as it was:
    a later [register] of the service returns the old dictionary. *)
Theorem failed_write_lost_at_restart
    (sid : string) (self : service) (m : mongo_db) (key : string) (v : value) :
  registered sid self m ->
  faults m = [true] ->
  exists self' m',
    Service.__setitem__ key v (self, m) = (Raise PyMongoError, (self', m')) /\
    Service.__getitem__ self' key = Some v /\
    docs m' = docs m /\
    Service.register sid m' = (Return (_config self), m').
Proof.
  intros Hreg Hf.
  exists (with_config self (<[key := v]> (_config self))),
         {| docs := docs m; faults := [] |}.
  split.
  - unfold Service.__setitem__, bind, self_config, set_self_config, on_mongo.
    simpl. by rewrite (save_fault _ _ _ Hf).
  - split; [apply lookup_insert_eq |]. split; [done |].
    by apply register_found.
Qed.

Lemma failed_write_lost_at_restart_witness :
  exists self' m',
    Service.__setitem__ "access_token" (VStr "tok")
      (dropbox_off, db [dropbox_doc] [true])
    = (Raise PyMongoError, (self', m')) /\
    is_enabled self' = true /\
    Service.register "dropbox" m' = (Return dropbox_doc, m').
Proof.
  destruct (failed_write_lost_at_restart "dropbox" dropbox_off
              (db [dropbox_doc] [true]) "access_token" (VStr "tok")
              eq_refl eq_refl) as (self' & m' & H1 & H2 & _ & H4).
  exists self', m'. split; [exact H1 |]. split; [| exact H4].
  vm_compute in H1. inversion H1; subst. reflexivity.
Defined.
